(** * ORB_SLAM3_AQUALOC: the monocular frame-replay driver

    A shallow embedding of [ORB_SLAM3/Examples/Monocular/mono_aqualoc.cc]:
    the association-file loader [LoadImages] and the control flow of [main].

    Conventions of the embedding.
    - Text is [string] (a sequence of 8-bit [ascii] characters).
    - [double] and [float] are IEEE 754 binary64 and binary32 values, taken
      from the standard library's [spec_float] with its correctly rounded
      operations.
    - The C++ stream operations the source calls ([getline], [operator>>] on
      [double] and on [std::string], [eof]) are modelled with their state
      bits, following the "C" locale and the libstdc++ implementation used on
      the platform the README names (Ubuntu 20.04, GCC).
    - The engine ([ORB_SLAM3::System]), OpenCV ([cv::imread], [cv::resize]),
      the clock and [usleep] are external: their calls are recorded as
      events of a run, their results come from a [World], and every such
      call is taken to return normally.
    - [LoadImages] and [main] are the functions on an association file
      that cannot be opened or is read to its end.  A path that opens but
      cannot be read (a directory) is covered by [LoadImages_steps] and
      [main_steps], which run the reading loop step by step and agree with
      [LoadImages] and [main] on every other file. *)

From Stdlib Require Import ZArith Lia List Bool Ascii String.
From Stdlib Require Import Permutation Sorted.
From Stdlib Require Import Floats.SpecFloat.
Import ListNotations.

Local Open Scope string_scope.
Local Open Scope Z_scope.
Local Open Scope list_scope.

(* ================================================================= *)
(** ** Characters *)

Module Chars.

Definition code (c : ascii) : Z := Z.of_N (N_of_ascii c).

(** [isspace] in the "C" locale: space, \t, \n, \v, \f, \r. *)
Definition isspace (c : ascii) : bool :=
  (code c =? 32) || ((9 <=? code c) && (code c <=? 13)).

Definition isdigit (c : ascii) : bool :=
  (48 <=? code c) && (code c <=? 57).

Definition digit_value (c : ascii) : Z := code c - 48.

Definition is_char (c d : ascii) : bool := Ascii.eqb c d.

Definition newline : ascii := "010"%char.
Definition hash : ascii := "#"%char.
Definition plus : ascii := "+"%char.
Definition minus : ascii := "-"%char.
Definition point : ascii := "."%char.

Definition is_sign (c : ascii) : bool := is_char c plus || is_char c minus.
Definition is_exp (c : ascii) : bool := is_char c "e"%char || is_char c "E"%char.

End Chars.
Import Chars.

(* ================================================================= *)
(** ** Floating point: binary64 [double] and binary32 [float] *)

Module IEEE.

Definition double := spec_float.
Definition float := spec_float.

Definition dprec := 53.
Definition demax := 1024.
Definition fprec := 24.
Definition femax := 128.

Definition is_nan (x : spec_float) : bool :=
  match x with S754_nan => true | _ => false end.

Definition is_zero (x : spec_float) : bool :=
  match x with S754_zero _ => true | _ => false end.

(** double arithmetic and comparison *)
Definition dsub : double -> double -> double := SFsub dprec demax.
Definition dmul : double -> double -> double := SFmul dprec demax.
Definition ddiv : double -> double -> double := SFdiv dprec demax.
Definition dlt : double -> double -> bool := SFltb.

(** float arithmetic and comparison *)
Definition fadd : float -> float -> float := SFadd fprec femax.
Definition fmul : float -> float -> float := SFmul fprec femax.
Definition fdiv : float -> float -> float := SFdiv fprec femax.
Definition flt : float -> float -> bool := SFltb.
Definition fle : float -> float -> bool := SFleb.
Definition feq : float -> float -> bool := SFeqb.

(** integer to floating point, rounding to nearest even *)
Definition double_of_Z (n : Z) : double := binary_normalize dprec demax n 0 false.
Definition float_of_Z (n : Z) : float := binary_normalize fprec femax n 0 false.

(** [double] to [float] (the implicit conversion of an assignment) *)
Definition float_of_double (x : double) : float :=
  match x with
  | S754_finite s m e => binary_round fprec femax s m e
  | _ => x
  end.

(** literals *)
Definition dzero : double := S754_zero false.
Definition fzero : float := S754_zero false.
Definition fone : float := Eval cbv in float_of_Z 1.
Definition fhalf : float := S754_finite false 8388608 (-24).
Definition d1e6 : double := Eval cbv in double_of_Z 1000000.
Definition d1e9 : double := Eval cbv in double_of_Z 1000000000.
Definition dmax : double := Eval cbv in SFmax_float dprec demax.

(** The integer part of a floating-point value, rounding toward zero;
    [None] for NaN and the infinities. *)
Definition truncate (x : spec_float) : option Z :=
  match x with
  | S754_zero _ => Some 0
  | S754_finite s m e =>
      let a := match e with
               | Zneg k => Z.shiftr (Zpos m) (Zpos k)
               | _ => Z.shiftl (Zpos m) e
               end in
      Some (if s then - a else a)
  | _ => None
  end.

Definition INT_MIN := - 2 ^ 31.
Definition INT_MAX := 2 ^ 31 - 1.

(** Floating point to [int]: truncation toward zero.  A value that does
    not fit is undefined behaviour in C++; the x86-64 conversion
    instruction the compiler emits yields INT_MIN then, which is what the
    model returns. *)
Definition int_of_float (x : float) : Z :=
  match truncate x with
  | Some n => if (INT_MIN <=? n) && (n <=? INT_MAX) then n else INT_MIN
  | None => INT_MIN
  end.

(** The decimal value [(-1)^neg * m * 10^e], correctly rounded to binary64
    (what glibc's [strtod] returns for a decimal literal). *)
Definition double_of_decimal (neg : bool) (m : Z) (e : Z) : double :=
  match m with
  | Zpos _ =>
      match e with
      | Zneg k =>
          let '(q, e', l) := SFdiv_core_binary dprec demax m 0 (10 ^ Zpos k) 0 in
          binary_round_aux dprec demax neg q e' l
      | _ => binary_normalize dprec demax (if neg then - (m * 10 ^ e) else m * 10 ^ e) 0 false
      end
  | _ => S754_zero neg
  end.

End IEEE.
Import IEEE.

(* ================================================================= *)
(** ** Text helpers *)

Module Text.

Fixpoint skipws (s : string) : string :=
  match s with
  | String c s' => if isspace c then skipws s' else s
  | EmptyString => s
  end.

(** The longest prefix without a whitespace character, and what follows. *)
Fixpoint span_word (s : string) : string * string :=
  match s with
  | String c s' =>
      if isspace c then (EmptyString, s)
      else let (w, r) := span_word s' in (String c w, r)
  | EmptyString => (EmptyString, EmptyString)
  end.

Definition is_empty (s : string) : bool :=
  match s with EmptyString => true | _ => false end.

(** [s[0]] of a non-empty string *)
Definition first_char (s : string) : option ascii :=
  match s with String c _ => Some c | EmptyString => None end.

(** The pieces of [f] between newline characters: what successive
    [getline] calls return until the end of the text is hit. *)
Fixpoint split_lines (f : string) : list string :=
  match f with
  | EmptyString => [EmptyString]
  | String c f' =>
      if is_char c newline then EmptyString :: split_lines f'
      else match split_lines f' with
           | l :: ls => String c l :: ls
           | [] => [String c EmptyString]
           end
  end.

End Text.
Import Text.

(* ================================================================= *)
(** ** Reading a number: [num_get] and [strtod] *)

Module NumGet.

(** Decimal digits of [s] read onto the accumulator [acc]; returns the
    value, the number of digits read and the rest. *)
Fixpoint read_digits (acc : Z) (n : Z) (s : string) : Z * Z * string :=
  match s with
  | String c s' =>
      if isdigit c then read_digits (10 * acc + digit_value c) (n + 1) s'
      else (acc, n, s)
  | EmptyString => (acc, n, s)
  end.

Definition read_sign (s : string) : bool * string :=
  match s with
  | String c s' =>
      if is_char c minus then (true, s')
      else if is_char c plus then (false, s')
      else (false, s)
  | EmptyString => (false, s)
  end.

(** [strtod] on a decimal literal: optional sign, digits with an
    optional radix point, and an exponent part that is taken only when
    it has a digit.  Returns the value and the unconverted rest; when
    there is no digit in the mantissa nothing is converted and the rest is
    the whole input. *)
Definition strtod (s : string) : double * string :=
  let (neg, s0) := read_sign s in
  let '(m1, n1, s1) := read_digits 0 0 s0 in
  let '(m, n2, s2) :=
    match s1 with
    | String c s1' =>
        if is_char c point then read_digits m1 0 s1' else (m1, 0, s1)
    | EmptyString => (m1, 0, s1)
    end in
  if n1 + n2 =? 0 then (dzero, s)
  else
    let '(ex, s3) :=
      match s2 with
      | String c s2' =>
          if is_exp c then
            let (eneg, s2'') := read_sign s2' in
            let '(e, n3, s3) := read_digits 0 0 s2'' in
            if n3 =? 0 then (0, s2) else ((if eneg then - e else e), s3)
          else (0, s2)
      | EmptyString => (0, s2)
      end in
    (double_of_decimal neg m (ex - n2), s3).

(** Stage 2 of [num_get::do_get] for a floating-point type, "C" locale
    (libstdc++ [_M_extract_float]): the characters accumulated for the
    conversion and the characters left in the stream. *)

(** The main loop: digits, one radix point before any exponent, one
    exponent marker after a mantissa digit, with an optional sign directly
    after it. *)
Fixpoint extract_loop (found_mantissa found_dec found_sci : bool) (s : string)
  : string * string :=
  match s with
  | EmptyString => (EmptyString, EmptyString)
  | String c s' =>
      if isdigit c then
        let (x, r) := extract_loop true found_dec found_sci s' in (String c x, r)
      else if is_char c point && negb found_dec && negb found_sci then
        let (x, r) := extract_loop found_mantissa true found_sci s' in
        (String point x, r)
      else if is_exp c && negb found_sci && found_mantissa then
        match s' with
        | EmptyString => (String "e" EmptyString, EmptyString)
        | String c2 s'' =>
            if is_sign c2 then
              let (x, r) := extract_loop found_mantissa found_dec true s'' in
              (String "e" (String c2 x), r)
            else
              let (x, r) := extract_loop found_mantissa found_dec true s' in
              (String "e" x, r)
        end
      else (EmptyString, s)
  end.

(** Leading zeros: all are consumed, one is kept. *)
Fixpoint extract_zeros (found_mantissa : bool) (s : string) : string * string :=
  match s with
  | String c s' =>
      if is_char c "0"%char then
        let (x, r) := extract_zeros true s' in
        (if found_mantissa then x else String "0" x, r)
      else extract_loop found_mantissa false false s
  | EmptyString => (EmptyString, EmptyString)
  end.

Definition extract_float (s : string) : string * string :=
  match s with
  | String c s' =>
      if is_sign c then
        let (x, r) := extract_zeros false s' in (String c x, r)
      else extract_zeros false s
  | EmptyString => (EmptyString, EmptyString)
  end.

(** Stage 3 (libstdc++ [__convert_to_v]): the conversion fails when
    [strtod] does not convert all of the accumulated characters, and when
    the value overflows. Returns the value stored and the error flag. *)
Definition convert_to_v (xtrc : string) : double * bool :=
  let (v, rest) := strtod xtrc in
  if is_empty xtrc || negb (is_empty rest) then (dzero, true)
  else match v with
       | S754_infinity false => (dmax, true)
       | S754_infinity true => (SFopp dmax, true)
       | _ => (v, false)
       end.

End NumGet.
Import NumGet.

(* ================================================================= *)
(** ** Input string streams *)

Module Stream.

(** An input stream over a string: the characters not yet read and the
    state bits ([badbit] is never set when reading from memory). *)
Record istream := mk_istream {
  pending : string;
  failbit : bool;
  eofbit : bool
}.

(** [stringstream ss; ss << s;] *)
Definition of_string (s : string) : istream := mk_istream s false false.

Definition good (ss : istream) : bool := negb (failbit ss) && negb (eofbit ss).

(** The sentry of a formatted input function, with [skipws] set: a stream
    that is not good fails; otherwise whitespace is skipped, and reaching
    the end sets both [eofbit] and [failbit]. *)
Definition sentry (ss : istream) : bool * istream :=
  if good ss then
    match skipws (pending ss) with
    | EmptyString => (false, mk_istream EmptyString true true)
    | b => (true, mk_istream b false false)
    end
  else (false, mk_istream (pending ss) true (eofbit ss)).

(** [ss >> t] for [double t]: [None] when nothing is stored in [t]. *)
Definition extract_double (ss : istream) : istream * option double :=
  let (ok, ss1) := sentry ss in
  if ok then
    let (xtrc, rest) := extract_float (pending ss1) in
    let (v, err) := convert_to_v xtrc in
    (mk_istream rest err (is_empty rest), Some v)
  else (ss1, None).

(** [ss >> str] for [std::string str]: [None] when [str] is not touched. *)
Definition extract_string (ss : istream) : istream * option string :=
  let (ok, ss1) := sentry ss in
  if ok then
    let (w, rest) := span_word (pending ss1) in
    (mk_istream rest (is_empty w) (is_empty rest), Some w)
  else (ss1, None).

End Stream.
Import Stream.

(* ================================================================= *)
(** ** The world outside the driver, and what a run does to it *)

(** [cv::Mat], as far as the driver looks at it. *)
Record Mat := mk_Mat { cols : Z; rows : Z }.

(** [im.empty()]: no element. [cv::imread] returns such a matrix when the
    file is missing or cannot be decoded. *)
Definition Mat_empty (im : Mat) : bool := (cols im * rows im =? 0).

(** [cv::resize(im, im, cv::Size(width, height))] *)
Definition cv_resize (im : Mat) (width height : Z) : Mat := mk_Mat width height.

Record World := mk_World {
  (** [ifstream::open]: the text of the file, [None] when it cannot be opened *)
  open_file : string -> option string;
  (** [cv::imread(path, cv::IMREAD_UNCHANGED)] *)
  imread : string -> Mat;
  (** [SLAM.GetImageScale()] *)
  image_scale : float;
  (** the reading of the k-th call of [steady_clock::now()], in
      nanosecond ticks *)
  now : nat -> Z
}.

Inductive eSensor := MONOCULAR.

Inductive event :=
| Cerr (msg : string)
| Cout (msg : string)
| CoutInt (n : Z)
| CoutFloat (x : float)
| SystemCtor (strVocFile strSettingsFile : string) (sensor : eSensor) (bUseViewer : bool)
| GetImageScale
| Imread (path : string)
| Resize (width height : Z)
| TrackMonocular (im : Mat) (timestamp : double)
| Usleep (usec : Z)
| Shutdown
| SaveKeyFrameTrajectoryTUM (filename : string)
| SaveTrajectoryTUM (filename : string).

Definition endl : string := String newline EmptyString.

(* ================================================================= *)
(** ** [LoadImages] *)

(** The two output vectors, passed by reference. *)
Record Vectors := mk_Vectors {
  vstrImageFilenames : list string;
  vTimestamps : list double
}.

(** The value read from [double t;] when nothing was stored in it. No
    such read happens: see [timestamp_is_extracted]. *)
Definition indeterminate : double := S754_nan.

(** [s[0] != '#'] for a non-empty [s] *)
Definition starts_with_hash (s : string) : bool :=
  match first_char s with Some c => is_char c hash | None => false end.

(** The two extractions of the loop body: [ss >> t; ss >> sRGB;] on a
    stream holding the line. [sRGB] starts out empty. *)
Definition extract_pair (s : string) : option double * string :=
  let ss := of_string s in
  let (ss1, t) := extract_double ss in
  let (ss2, r) := extract_string ss1 in
  (t, match r with Some w => w | None => EmptyString end).

(** The body of the [while] loop for the line [s] that [getline] returned. *)
Definition process_line (v : Vectors) (s : string) : Vectors :=
  if negb (is_empty s) && negb (starts_with_hash s) then
    let (t, sRGB) := extract_pair s in
    if negb (is_empty sRGB) then
      mk_Vectors (vstrImageFilenames v ++ [sRGB])
                 (vTimestamps v ++ [match t with Some x => x | None => indeterminate end])
    else v
  else v.

(** [while(!fAssociation.eof()) { getline(fAssociation, s); ... }]: one
    iteration per piece of the text, the last one hitting the end. *)
Definition read_all (content : string) (v : Vectors) : Vectors :=
  fold_left process_line (split_lines content) v.

Definition LoadImages (w : World) (strAssociationFile : string) (v : Vectors)
  : list event * Vectors :=
  match open_file w strAssociationFile with
  | None =>
      ([Cerr ("ERROR: Cannot open association file: " ++ strAssociationFile ++ endl)%string], v)
  | Some content => ([], read_all content v)
  end.

(* ================================================================= *)
(** ** [main] *)

(** [size_t] to [int]: the low 32 bits, read as two's complement. *)
Definition int_of_size (n : nat) : Z :=
  (Z.of_nat n + 2 ^ 31) mod 2 ^ 32 - 2 ^ 31.

(** [double] to [useconds_t] (unsigned 32 bits), as the call of [usleep]
    converts its argument: truncation toward zero.  Out of range the
    conversion is undefined in C++; the model follows x86-64 (a 64-bit
    truncating conversion, of which the low half is kept). *)
Definition useconds_of_double (x : double) : Z :=
  match truncate x with
  | Some n => if (- 2 ^ 63 <=? n) && (n <? 2 ^ 63) then n mod 2 ^ 32 else 0
  | None => 0
  end.

(** [v[i] = x] on a vector *)
Fixpoint vector_set {A} (v : list A) (i : nat) (x : A) : list A :=
  match v, i with
  | [], _ => []
  | _ :: v', O => x :: v'
  | y :: v', S i' => y :: vector_set v' i' x
  end.

(** [std::sort] on floats, ascending by [operator<].  The standard fixes
    the result (the same elements, in ascending order), not the algorithm;
    an insertion sort stands for it. *)
Fixpoint sort_insert (x : float) (l : list float) : list float :=
  match l with
  | [] => [x]
  | y :: l' => if flt y x then y :: sort_insert x l' else x :: l
  end.

Definition std_sort (l : list float) : list float :=
  fold_right sort_insert [] l.

Section Main.

Variable w : World.
Variable argv : list string.

Definition argc : Z := Z.of_nat (List.length argv).
Definition arg (i : nat) : string := nth i argv EmptyString.

Section Loop.

Variable v : Vectors.
Variable nImages : Z.
Variable imageScale : float.

Definition filename (ni : nat) : string := nth ni (vstrImageFilenames v) EmptyString.
Definition timestamp (ni : nat) : double := nth ni (vTimestamps v) indeterminate.

(** The frame handed to the engine: resized when the scale is not 1. *)
Definition scaled (im : Mat) : list event * Mat :=
  if negb (feq imageScale fone) then
    let width := int_of_float (fmul (float_of_Z (cols im)) imageScale) in
    let height := int_of_float (fmul (float_of_Z (rows im)) imageScale) in
    ([Resize width height], cv_resize im width height)
  else ([], im).

(** [duration_cast<duration<double>>(t2 - t1).count()] for iteration
    [ni], whose two clock readings are the calls [2 ni] and [2 ni + 1]. *)
Definition ttrack (ni : nat) : double :=
  ddiv (double_of_Z (now w (2 * ni + 1) - now w (2 * ni))) d1e9.

(** The interval to wait for before the next frame. *)
Definition pacing (ni : nat) : double :=
  let tframe := timestamp ni in
  if Z.of_nat ni <? nImages - 1 then dsub (timestamp (ni + 1)) tframe
  else if 0 <? Z.of_nat ni then dsub tframe (timestamp (ni - 1))
  else dzero.

Definition wait (ni : nat) : list event :=
  let T := pacing ni in
  if dlt (ttrack ni) T then [Usleep (useconds_of_double (dmul (dsub T (ttrack ni)) d1e6))]
  else [].

(** One iteration of the main loop: its events, and the tracking time
    it stores, or [None] when it returns 1 from [main]. *)
Definition frame (ni : nat) : list event * option float :=
  let im := imread w (filename ni) in
  if Mat_empty im then
    ([Imread (filename ni);
      Cerr (endl ++ "Failed to load image at: " ++ filename ni ++ endl)%string], None)
  else
    let (ev, im') := scaled im in
    ([Imread (filename ni)] ++ ev ++ [TrackMonocular im' (timestamp ni)] ++ wait ni,
     Some (float_of_double (ttrack ni))).

(** [for(int ni = 0; ni < nImages; ni++)], over the indices still to
    do. *)
Fixpoint frames (todo : list nat) (vTimesTrack : list float)
  : list event * option (list float) :=
  match todo with
  | [] => ([], Some vTimesTrack)
  | ni :: todo' =>
      match frame ni with
      | (ev, None) => (ev, None)
      | (ev, Some t) =>
          let (ev', r) := frames todo' (vector_set vTimesTrack ni t) in
          (ev ++ ev', r)
      end
  end.

(** The statistics printed after the loop. *)
Definition totaltime (sorted : list float) : float :=
  fold_left (fun acc ni => fadd acc (nth ni sorted fzero))
            (seq 0 (Z.to_nat nImages)) fzero.

Definition median (sorted : list float) : float :=
  nth (Z.to_nat (Z.quot nImages 2)) sorted fzero.

Definition mean (sorted : list float) : float :=
  fdiv (totaltime sorted) (float_of_Z nImages).

Definition statistics (vTimesTrack : list float) : list event :=
  let sorted := std_sort vTimesTrack in
  [Cout ("-------" ++ endl ++ endl)%string;
   Cout "median tracking time: "; CoutFloat (median sorted); Cout endl;
   Cout "mean tracking time: "; CoutFloat (mean sorted); Cout endl].

End Loop.

Definition usage : string :=
  (endl ++ "Usage: ./mono_aqualoc path_to_vocabulary path_to_settings path_to_associations" ++ endl)%string.

Definition banner (nImages : Z) : list event :=
  [Cout (endl ++ "-------" ++ endl)%string;
   Cout ("AQUALOC Monocular SLAM" ++ endl)%string;
   Cout "Images in sequence: "; CoutInt nImages; Cout endl;
   Cout ("-------" ++ endl ++ endl)%string].

(** [main]: the events of the run and the exit code. *)
Definition main : list event * Z :=
  if negb (argc =? 4) then ([Cerr usage], 1)
  else
    let (ev0, v) := LoadImages w (arg 3) (mk_Vectors [] []) in
    let nImages := int_of_size (List.length (vstrImageFilenames v)) in
    if nImages <=? 0 then
      (ev0 ++ [Cerr ("ERROR: No images found in association file." ++ endl)%string], 1)
    else
      let start := ev0 ++ banner nImages
                   ++ [SystemCtor (arg 1) (arg 2) MONOCULAR true; GetImageScale] in
      let imageScale := image_scale w in
      let vTimesTrack := repeat fzero (Z.to_nat nImages) in
      match frames v nImages imageScale (seq 0 (Z.to_nat nImages)) vTimesTrack with
      | (ev, None) => (start ++ ev, 1)
      | (ev, Some vTimesTrack') =>
          (start ++ ev ++ [Shutdown] ++ statistics nImages vTimesTrack'
             ++ [SaveKeyFrameTrajectoryTUM "KeyFrameTrajectory.txt";
                 SaveTrajectoryTUM "CameraTrajectory.txt"], 0)
      end.

End Main.

(* ================================================================= *)
(** ** Parts of a run, named for the statements below *)

(** The vectors [main] gets from [LoadImages], and [nImages]. *)
Definition loaded (w : World) (argv : list string) : Vectors :=
  snd (LoadImages w (arg argv 3) (mk_Vectors [] [])).

Definition image_count (w : World) (argv : list string) : Z :=
  int_of_size (List.length (vstrImageFilenames (loaded w argv))).

(** The main loop is entered: three arguments and a positive [nImages]. *)
Definition enters_loop (w : World) (argv : list string) : bool :=
  (argc argv =? 4) && negb (image_count w argv <=? 0).

(** The image of entry [ni] decodes to a non-empty matrix. *)
Definition decodes (w : World) (argv : list string) (ni : nat) : bool :=
  negb (Mat_empty (imread w (filename (loaded w argv) ni))).

(** The events of iteration [ni] of the main loop. *)
Definition iteration (w : World) (argv : list string) (ni : nat) : list event :=
  fst (frame w (loaded w argv) (image_count w argv) (image_scale w) ni).

(** The timing sample of iteration [ni], as stored in [vTimesTrack]. *)
Definition sample (w : World) (ni : nat) : float := float_of_double (ttrack w ni).

(** Everything the run does before the first frame. *)
Definition prologue (w : World) (argv : list string) : list event :=
  fst (LoadImages w (arg argv 3) (mk_Vectors [] []))
  ++ banner (image_count w argv)
  ++ [SystemCtor (arg argv 1) (arg argv 2) MONOCULAR true; GetImageScale].

Definition is_track (e : event) : bool :=
  match e with TrackMonocular _ _ => true | _ => false end.

Definition is_imread (e : event) : bool :=
  match e with Imread _ => true | _ => false end.

Definition is_usleep (e : event) : bool :=
  match e with Usleep _ => true | _ => false end.

(** The events by which the run starts the engine, stops it, or has it
    write a trajectory. *)
Definition is_engine_start (e : event) : bool :=
  match e with SystemCtor _ _ _ _ => true | _ => false end.

Definition is_shutdown_or_export (e : event) : bool :=
  match e with
  | Shutdown | SaveKeyFrameTrajectoryTUM _ | SaveTrajectoryTUM _ => true
  | _ => false
  end.

(** Ascending order of floats. *)
Definition ascending (l : list float) : Prop :=
  StronglySorted (fun x y => fle x y = true) l.

(* ================================================================= *)
(** ** The association file as the specification describes it *)

Module Manifest.

(** The whitespace-delimited tokens of a line. *)
Fixpoint tokens (s : string) : list string :=
  match s with
  | EmptyString => []
  | String c s' =>
      if isspace c then tokens s'
      else
        match s' with
        | EmptyString => [String c EmptyString]
        | String c' _ =>
            if isspace c' then String c EmptyString :: tokens s'
            else match tokens s' with
                 | t :: ts => String c t :: ts
                 | [] => [String c EmptyString]
                 end
        end
  end.

Definition first_token (l : string) : option string := nth_error (tokens l) 0.
Definition second_token (l : string) : option string := nth_error (tokens l) 1.

(** A comment: the first character that is not whitespace is '#'. *)
Definition is_comment (l : string) : bool :=
  match first_char (skipws l) with Some c => is_char c hash | None => false end.

(** A blank line: empty, or whitespace only. *)
Definition is_blank (l : string) : bool := is_empty (skipws l).

(** A line [LoadImages] looks into: not empty, first character not '#'. *)
Definition is_data_line (l : string) : bool :=
  negb (is_empty l) && negb (starts_with_hash l).

(** The number [operator>>] reads off the front of a token, and whether
    it reads one at all (the conversion can fail). *)
Definition token_value (tok : string) : double :=
  fst (convert_to_v (fst (extract_float tok))).

Definition number_extracted (tok : string) : bool :=
  negb (snd (convert_to_v (fst (extract_float tok)))).

(** The token parses as a floating-point number: a number is read from
    it, and it is the whole token. *)
Definition parses_as_double (tok : string) : bool :=
  number_extracted tok && is_empty (snd (extract_float tok)).

(** A number is read from the front of the token and characters are left
    over, as in [0.1;img0.png]. *)
Definition number_then_more (tok : string) : bool :=
  number_extracted tok && negb (is_empty (snd (extract_float tok))).

(** "Comment" and "begins with '#'" can be read on the first character of
    the line, as the source tests it, or on its first character that is not
    whitespace, as the data model of the specification has it. *)
Inductive reading := FirstCharacter | FirstNonWhitespace.

Definition comment (r : reading) (l : string) : bool :=
  match r with
  | FirstCharacter => starts_with_hash l
  | FirstNonWhitespace => is_comment l
  end.

(** A line that is neither empty nor a comment. *)
Definition candidate (r : reading) (l : string) : bool :=
  negb (is_empty l) && negb (comment r l).

(** Well-formed: the first token of every line that is neither empty nor a
    comment parses as a floating-point number. *)
Definition well_formed (r : reading) (content : string) : Prop :=
  forall l tok, In l (split_lines content) -> candidate r l = true ->
                first_token l = Some tok -> parses_as_double tok = true.

(** The entry a line stands for: timestamp from the first token, path the
    second token as it is, further tokens ignored. *)
Definition entry_of_tokens (toks : list string) : list (double * string) :=
  match toks with
  | t1 :: t2 :: _ => [(token_value t1, t2)]
  | _ => []
  end.

Definition entry_of_line (r : reading) (l : string) : list (double * string) :=
  if candidate r l then entry_of_tokens (tokens l) else [].

Definition entries (r : reading) (content : string) : list (double * string) :=
  flat_map (entry_of_line r) (split_lines content).

(** Not empty, not beginning with '#', and with a second token. *)
Definition counted (r : reading) (l : string) : bool :=
  candidate r l && match second_token l with Some _ => true | None => false end.

(** "A comment, blank, or lacks a non-empty second token". *)
Definition without_entry_as_stated (l : string) : Prop :=
  is_comment l = true \/ is_blank l = true \/ second_token l = None.

(** The same, with the one-token line restricted to a token that is not
    a number followed by more characters. *)
Definition without_entry (l : string) : Prop :=
  is_comment l = true \/ is_blank l = true \/
  exists tok, tokens l = [tok] /\ number_then_more tok = false.

End Manifest.
Import Manifest.

(** Inputs for the counterexamples: an association file of one line whose
    only token is a number directly followed by other characters. *)
Definition glued_line : string := "0.1;img0.png".

Definition glued_world : World :=
  mk_World (fun _ => Some glued_line) (fun _ => mk_Mat 640 512) fone (fun _ => 0).

Definition example_argv : list string :=
  ["mono_aqualoc"; "ORBvoc.txt"; "harbor_fisheye.yaml"; "associations.txt"].

(** What may follow a token: nothing, or a whitespace character. *)
Definition boundary (r : string) : Prop :=
  match r with
  | EmptyString => True
  | String c _ => isspace c = true
  end.

(** The first word of a text: its first token, or the empty string. *)
Definition first_word (s : string) : string := fst (span_word (skipws s)).

(** The call of the engine in iteration [ni]. *)
Definition tracked (w : World) (argv : list string) (ni : nat) : event :=
  TrackMonocular
    (snd (scaled (image_scale w) (imread w (filename (loaded w argv) ni))))
    (timestamp (loaded w argv) ni).

(** The message of a failed decode. *)
Definition decode_error (path : string) : event :=
  Cerr (endl ++ "Failed to load image at: " ++ path ++ endl)%string.

(** What the run does after the last frame. *)
Definition epilogue (nImages : Z) (vTimesTrack : list float) : list event :=
  [Shutdown] ++ statistics nImages vTimesTrack
  ++ [SaveKeyFrameTrajectoryTUM "KeyFrameTrajectory.txt";
      SaveTrajectoryTUM "CameraTrajectory.txt"].

(** Storing the samples of the iterations [todo] into [vTimesTrack]. *)
Definition store_samples (w : World) (todo : list nat) (vTimesTrack : list float)
  : list float :=
  fold_left (fun vt ni => vector_set vt ni (sample w ni)) todo vTimesTrack.

(** ** Example inputs *)

(** An association file with a comment, three entries (one with a trailing
    token), a blank line and a line without a path. *)
Definition manifest_example : string :=
  "# timestamp filename
0.0 img0.png
0.1 img1.png extra

0.2 img2.png
0.5
".

(** A world with that file, 640x512 images except for a missing
    [img1.png], a scale of one half, and a clock that advances by 30 ms
    between readings. *)
Definition example_world : World :=
  mk_World (fun _ => Some manifest_example)
           (fun p => if String.eqb p "img1.png" then mk_Mat 0 0 else mk_Mat 640 512)
           fhalf
           (fun k => Z.of_nat k * 30000000).

(** The same world with every image present. *)
Definition complete_world : World :=
  mk_World (fun _ => Some manifest_example) (fun _ => mk_Mat 640 512) fhalf
           (fun k => Z.of_nat k * 30000000).

(** A world in which the association file cannot be opened. *)
Definition closed_world : World :=
  mk_World (fun _ => None) (fun _ => mk_Mat 640 512) fone (fun _ => 0).

(** ** Notions for the further properties *)

(** The timestamps the engine is called with, in the order of the calls. *)
Definition track_timestamps (trace : list event) : list double :=
  flat_map (fun e => match e with TrackMonocular _ t => [t] | _ => [] end) trace.

(** A whitespace character occurs in the text. *)
Fixpoint has_space (s : string) : bool :=
  match s with
  | EmptyString => false
  | String c s' => isspace c || has_space s'
  end.

(** A number: neither NaN nor an infinity. *)
Definition is_finite (x : spec_float) : bool :=
  match x with
  | S754_zero _ | S754_finite _ _ _ => true
  | _ => false
  end.

(** The sign bit is clear (and the value is not NaN). *)
Definition sign_clear (x : spec_float) : bool :=
  match x with
  | S754_zero s | S754_infinity s | S754_finite s _ _ => negb s
  | S754_nan => false
  end.

(** The two vectors of [u] put behind those of [v]. *)
Definition Vectors_app (v u : Vectors) : Vectors :=
  mk_Vectors (vstrImageFilenames v ++ vstrImageFilenames u)
             (vTimestamps v ++ vTimestamps u).

(** Every image of the run decodes. *)
Definition all_decode (w : World) (argv : list string) : bool :=
  forallb (decodes w argv) (seq 0 (Z.to_nat (image_count w argv))).

(** A world whose association file has one entry. *)
Definition single_world : World :=
  mk_World (fun _ => Some "0.25 img0.png") (fun _ => mk_Mat 640 512) fone
           (fun k => Z.of_nat k * 30000000).

(** A world whose association file has two entries with one timestamp. *)
Definition duplicate_world : World :=
  mk_World (fun _ => Some "0.5 img0.png
0.5 img1.png") (fun _ => mk_Mat 640 512) fone
           (fun k => Z.of_nat k * 30000000).

(** A world whose association file has two entries 5000 seconds apart. *)
Definition long_gap_world : World :=
  mk_World (fun _ => Some "0 a.png
5000 b.png") (fun _ => mk_Mat 640 512) fone
           (fun k => Z.of_nat k * 30000000).

(* ================================================================= *)
(** ** The reading loop, step by step *)

(** What [fAssociation.open] finds at the path: nothing that can be opened,
    a text, or something that opens and cannot be read (a directory). *)
Inductive file_state :=
| Unopenable
| Readable (content : string)
| Unreadable.

(** The stream inside the loop: text still to read, the end reached
    ([eofbit] set), or a failed read ([badbit] set, [eofbit] never). *)
Inductive ifstream :=
| Pending (text : string)
| AtEof
| Bad.

(** [fAssociation.eof()] *)
Definition stream_eof (f : ifstream) : bool :=
  match f with AtEof => true | _ => false end.

(** The characters up to the first newline, and the text after it: [None]
    when there is no newline and the end is hit. *)
Fixpoint cut_line (text : string) : string * option string :=
  match text with
  | EmptyString => (EmptyString, None)
  | String c text' =>
      if is_char c newline then (EmptyString, Some text')
      else let (l, r) := cut_line text' in (String c l, r)
  end.

(** [getline(fAssociation, s)] on the fresh [s] of an iteration: on a
    stream that is not good nothing is read and [s] stays empty. *)
Definition stream_getline (f : ifstream) : string * ifstream :=
  match f with
  | Pending text =>
      let (l, r) := cut_line text in
      (l, match r with Some text' => Pending text' | None => AtEof end)
  | AtEof => (EmptyString, AtEof)
  | Bad => (EmptyString, Bad)
  end.

(** [while(!fAssociation.eof()) { string s; getline(fAssociation, s); ... }],
    for at most [fuel] iterations: [None] when the loop has not ended by
    then. *)
Fixpoint while_not_eof (fuel : nat) (f : ifstream) (v : Vectors) : option Vectors :=
  if stream_eof f then Some v
  else match fuel with
       | O => None
       | S fuel' =>
           let (s, f') := stream_getline f in
           while_not_eof fuel' f' (process_line v s)
       end.

(** [LoadImages] on such a file: [None] when it has not returned within
    [fuel] iterations of its loop. *)
Definition LoadImages_steps (fuel : nat) (st : file_state)
  (strAssociationFile : string) (v : Vectors) : option (list event * Vectors) :=
  match st with
  | Unopenable =>
      Some ([Cerr ("ERROR: Cannot open association file: "
                   ++ strAssociationFile ++ endl)%string], v)
  | Readable content =>
      option_map (fun v' => ([], v')) (while_not_eof fuel (Pending content) v)
  | Unreadable =>
      option_map (fun v' => ([], v')) (while_not_eof fuel Bad v)
  end.

(** [main] from the return of [LoadImages] on: [ev0] is what [LoadImages]
    wrote, [v] the vectors it filled. *)
Definition main_from (w : World) (argv : list string)
  (ev0 : list event) (v : Vectors) : list event * Z :=
  let nImages := int_of_size (List.length (vstrImageFilenames v)) in
  if nImages <=? 0 then
    (ev0 ++ [Cerr ("ERROR: No images found in association file." ++ endl)%string], 1)
  else
    let start := ev0 ++ banner nImages
                 ++ [SystemCtor (arg argv 1) (arg argv 2) MONOCULAR true; GetImageScale] in
    let imageScale := image_scale w in
    let vTimesTrack := repeat fzero (Z.to_nat nImages) in
    match frames w v nImages imageScale (seq 0 (Z.to_nat nImages)) vTimesTrack with
    | (ev, None) => (start ++ ev, 1)
    | (ev, Some vTimesTrack') =>
        (start ++ ev ++ [Shutdown] ++ statistics nImages vTimesTrack'
           ++ [SaveKeyFrameTrajectoryTUM "KeyFrameTrajectory.txt";
               SaveTrajectoryTUM "CameraTrajectory.txt"], 0)
    end.

(** [main] with the association file in the state [st]: [None] when it has
    not returned within [fuel] iterations of the reading loop. *)
Definition main_steps (fuel : nat) (w : World) (st : file_state)
  (argv : list string) : option (list event * Z) :=
  if negb (argc argv =? 4) then Some ([Cerr usage], 1)
  else
    match LoadImages_steps fuel st (arg argv 3) (mk_Vectors [] []) with
    | None => None
    | Some (ev0, v) => Some (main_from w argv ev0 v)
    end.

(** The world in which every path opens as [st] does, when it is read to
    its end. *)
Definition set_file (w : World) (st : file_state) : World :=
  mk_World (fun _ => match st with Readable content => Some content | _ => None end)
           (imread w) (image_scale w) (now w).

(* ================================================================= *)
(** * Properties *)

(** ** Characters and words *)

Lemma isspace_not_numeric c :
  isspace c = true ->
  isdigit c = false /\ is_char c point = false /\ is_exp c = false
  /\ is_sign c = false /\ is_char c "0"%char = false /\ is_char c hash = false.
Proof.
  destruct c as [[] [] [] [] [] [] [] []]; vm_compute; intuition congruence.
Qed.

Lemma span_word_app s :
  s = (fst (span_word s) ++ snd (span_word s))%string.
Proof.
  induction s as [|c s IH]; simpl; [reflexivity|].
  destruct (isspace c); [reflexivity|].
  destruct (span_word s) as [w r]; simpl in *. now rewrite <- IH.
Qed.

Lemma span_word_boundary s : boundary (snd (span_word s)).
Proof.
  induction s as [|c s IH]; simpl; [exact I|].
  destruct (isspace c) eqn:E; simpl; [exact E|].
  now destruct (span_word s).
Qed.

Lemma span_word_nonspace c s :
  isspace c = false -> fst (span_word (String c s)) <> EmptyString.
Proof.
  intros E. simpl. rewrite E. now destruct (span_word s).
Qed.

Lemma skipws_head s :
  match skipws s with
  | EmptyString => True
  | String c _ => isspace c = false
  end.
Proof.
  induction s as [|c s IH]; simpl; [exact I|].
  destruct (isspace c) eqn:E; [exact IH|exact E].
Qed.

(** Tokens, one at a time: skip whitespace, take a word, go on. *)
Lemma tokens_step s :
  tokens s =
  match skipws s with
  | EmptyString => []
  | s' => fst (span_word s') :: tokens (snd (span_word s'))
  end.
Proof.
  induction s as [|c s IH]; [reflexivity|].
  cbn [tokens skipws]. destruct (isspace c) eqn:E; [exact IH|].
  cbn [span_word]. rewrite E.
  destruct s as [|c' s'].
  - reflexivity.
  - destruct (isspace c') eqn:E'.
    + cbn [span_word]. rewrite E'. reflexivity.
    + rewrite IH. cbn [skipws]. rewrite E'.
      destruct (span_word (String c' s')) as [w r]. reflexivity.
Qed.

Lemma tokens_nonempty s t : In t (tokens s) -> t <> EmptyString.
Proof.
  revert t. induction s as [|c s IH]; intros t; [contradiction|].
  cbn [tokens]. destruct (isspace c); [apply IH|].
  destruct s as [|c' s'].
  - intros [<-|[]]. discriminate.
  - destruct (isspace c').
    + intros [<-|H]; [discriminate|now apply IH].
    + destruct (tokens (String c' s')) as [|t' ts].
      * intros [<-|[]]. discriminate.
      * intros [<-|H]; [discriminate|]. apply IH. now right.
Qed.

Lemma first_word_tokens s :
  first_word s = match tokens s with t :: _ => t | [] => EmptyString end.
Proof.
  unfold first_word. rewrite tokens_step.
  destruct (skipws s); reflexivity.
Qed.

(** ** Reading a number off the front of a token *)

Lemma extract_loop_boundary fm fd fs r :
  boundary r -> extract_loop fm fd fs r = (EmptyString, r).
Proof.
  destruct r as [|c r]; [reflexivity|]. simpl. intros H.
  destruct (isspace_not_numeric c H) as (D & P & X & _).
  now rewrite D, P, X.
Qed.

Lemma extract_loop_app n : forall tok fm fd fs r,
  (String.length tok <= n)%nat -> boundary r ->
  extract_loop fm fd fs (tok ++ r) =
  (fst (extract_loop fm fd fs tok), (snd (extract_loop fm fd fs tok) ++ r)%string).
Proof.
  induction n as [|n IH]; intros tok fm fd fs r Hn Hr.
  - destruct tok; [|simpl in Hn; lia]. simpl. now apply extract_loop_boundary.
  - destruct tok as [|c tok]; [simpl; now apply extract_loop_boundary|].
    simpl in Hn. cbn [append extract_loop].
    destruct (isdigit c).
    { rewrite IH by (assumption || lia). now destruct (extract_loop true fd fs tok). }
    destruct (is_char c point && negb fd && negb fs).
    { rewrite IH by (assumption || lia). now destruct (extract_loop fm true fs tok). }
    destruct (is_exp c && negb fs && fm); [|reflexivity].
    destruct tok as [|c2 tok].
    + cbn [append]. destruct r as [|c2 r]; [reflexivity|].
      destruct (isspace_not_numeric c2 Hr) as (_ & _ & _ & S & _). rewrite S.
      now rewrite (extract_loop_boundary _ _ _ (String c2 r) Hr).
    + cbn [append]. simpl in Hn. destruct (is_sign c2).
      * rewrite IH by (assumption || lia). now destruct (extract_loop fm fd true tok).
      * change (String c2 (tok ++ r)%string) with (String c2 tok ++ r)%string.
        rewrite IH by (assumption || simpl; lia).
        now destruct (extract_loop fm fd true (String c2 tok)).
Qed.

Lemma extract_zeros_app tok : forall fm r,
  boundary r ->
  extract_zeros fm (tok ++ r) =
  (fst (extract_zeros fm tok), (snd (extract_zeros fm tok) ++ r)%string).
Proof.
  induction tok as [|c tok IH]; intros fm r Hr.
  - destruct r as [|c r]; [reflexivity|]. cbn [append extract_zeros].
    destruct (isspace_not_numeric c Hr) as (_ & _ & _ & _ & Z & _). rewrite Z.
    now apply extract_loop_boundary.
  - cbn [append extract_zeros]. destruct (is_char c "0"%char).
    + rewrite IH by assumption. now destruct (extract_zeros true tok).
    + change (String c (tok ++ r)%string) with (String c tok ++ r)%string.
      now apply (extract_loop_app (String.length (String c tok))).
Qed.

(** The characters read for a number do not depend on what follows the
    token. *)
Lemma extract_float_app tok r :
  boundary r ->
  extract_float (tok ++ r) =
  (fst (extract_float tok), (snd (extract_float tok) ++ r)%string).
Proof.
  intros Hr. destruct tok as [|c tok].
  - destruct r as [|c r]; [reflexivity|]. cbn [append extract_float].
    destruct (isspace_not_numeric c Hr) as (_ & _ & _ & S & _). rewrite S.
    now apply (extract_zeros_app EmptyString).
  - cbn [append extract_float]. destruct (is_sign c).
    + rewrite extract_zeros_app by assumption. now destruct (extract_zeros false tok).
    + change (String c (tok ++ r)%string) with (String c tok ++ r)%string.
      now apply extract_zeros_app.
Qed.

(** ** The two extractions of a line *)

Lemma extract_pair_eq l :
  extract_pair l =
  match skipws l with
  | EmptyString => (None, EmptyString)
  | s => let (xtrc, rest) := extract_float s in
         let (v, err) := convert_to_v xtrc in
         (Some v, if err then EmptyString else first_word rest)
  end.
Proof.
  unfold extract_pair, extract_double, extract_string, sentry, of_string, first_word.
  cbn [good pending failbit eofbit negb andb].
  destruct (skipws l) as [|c s] eqn:E; [reflexivity|].
  cbn [pending]. destruct (extract_float (String c s)) as [xtrc rest].
  destruct (convert_to_v xtrc) as [v err].
  cbn [good pending failbit eofbit].
  destruct err; [reflexivity|].
  destruct rest as [|c' rest]; [reflexivity|]. cbn [is_empty negb andb].
  destruct (skipws (String c' rest)) as [|c'' b] eqn:E'; [reflexivity|].
  cbn [good pending failbit eofbit negb andb].
  now destruct (span_word (String c'' b)).
Qed.

(** The pair read from a line, in terms of its first token [tok] and the
    text [r] after it. *)
Lemma extract_pair_token l tok r :
  skipws l = (tok ++ r)%string -> tok <> EmptyString -> boundary r ->
  extract_pair l =
  (Some (token_value tok),
   if number_extracted tok then first_word (snd (extract_float tok) ++ r)
   else EmptyString).
Proof.
  intros E Ht Hr. rewrite extract_pair_eq, E.
  destruct (tok ++ r)%string as [|c s] eqn:E2.
  { destruct tok; [congruence|discriminate]. }
  rewrite <- E2, (extract_float_app tok r Hr).
  unfold token_value, number_extracted.
  destruct (convert_to_v (fst (extract_float tok))) as [v []]; reflexivity.
Qed.

(** A line is its leading whitespace, its first token and a rest. *)
Lemma line_first_token l :
  skipws l <> EmptyString ->
  exists tok r, skipws l = (tok ++ r)%string /\ tok <> EmptyString /\ boundary r
                /\ tokens l = tok :: tokens r.
Proof.
  intros H. exists (fst (span_word (skipws l))), (snd (span_word (skipws l))).
  repeat split.
  - apply span_word_app.
  - pose proof (skipws_head l) as Hh. destruct (skipws l) as [|c s]; [congruence|].
    now apply span_word_nonspace.
  - apply span_word_boundary.
  - rewrite (tokens_step l). now destruct (skipws l).
Qed.

Lemma extract_double_eq l :
  extract_double (of_string l) =
  match skipws l with
  | EmptyString => (mk_istream EmptyString true true, None)
  | s => let (xtrc, rest) := extract_float s in
         let (v, err) := convert_to_v xtrc in
         (mk_istream rest err (is_empty rest), Some v)
  end.
Proof.
  unfold extract_double, sentry, of_string.
  cbn [good pending failbit eofbit negb andb].
  now destruct (skipws l).
Qed.

Lemma extract_string_failed ss :
  failbit ss = true -> snd (extract_string ss) = None.
Proof.
  intros H. unfold extract_string, sentry, good. now rewrite H.
Qed.

Lemma is_empty_true s : is_empty s = true -> s = EmptyString.
Proof. now destruct s. Qed.

Lemma is_empty_false s : s <> EmptyString -> is_empty s = false.
Proof. intros H. destruct s; [congruence|reflexivity]. Qed.

Lemma vectors_app_nil v :
  mk_Vectors (vstrImageFilenames v ++ []) (vTimestamps v ++ []) = v.
Proof. destruct v. cbn. now rewrite !app_nil_r. Qed.

(** A line that is not looked into, or from which no path is read, leaves
    the vectors as they are; any other line appends one path and one
    timestamp. *)
Lemma process_line_cases v l :
  (process_line v l = v /\
   (is_data_line l = false \/ snd (extract_pair l) = EmptyString))
  \/ (exists t, process_line v l =
                mk_Vectors (vstrImageFilenames v ++ [snd (extract_pair l)])
                           (vTimestamps v ++ [t])
                /\ is_data_line l = true /\ snd (extract_pair l) <> EmptyString).
Proof.
  unfold process_line, is_data_line.
  destruct (negb (is_empty l) && negb (starts_with_hash l)); [|left; auto].
  destruct (extract_pair l) as [t sRGB]. cbn [snd].
  destruct sRGB as [|c s]; cbn [is_empty negb]; [left; auto|right].
  eexists. repeat split. discriminate.
Qed.

(** When a path is read, a number was read before it: the timestamp that
    is stored is never the indeterminate value of the uninitialised [t]. *)
Lemma timestamp_is_extracted l :
  snd (extract_pair l) <> EmptyString ->
  exists x, fst (extract_pair l) = Some x
            /\ number_extracted (first_word l) = true.
Proof.
  destruct (skipws l) as [|c s] eqn:E.
  { rewrite extract_pair_eq, E. cbn. congruence. }
  assert (Hne : skipws l <> EmptyString) by congruence.
  destruct (line_first_token l Hne) as (tok & r & E1 & Ht & Hr & Htok).
  rewrite (extract_pair_token l tok r E1 Ht Hr), (first_word_tokens l), Htok.
  cbn [fst snd]. destruct (number_extracted tok); [|congruence].
  intros _. now eexists.
Qed.

(** ** Lines without an entry *)

Lemma hash_not_numeric s :
  extract_float (String hash s) = (EmptyString, String hash s).
Proof. reflexivity. Qed.

Lemma convert_empty : convert_to_v EmptyString = (dzero, true).
Proof. reflexivity. Qed.

Lemma comment_reads_nothing l :
  is_comment l = true -> snd (extract_pair l) = EmptyString.
Proof.
  unfold is_comment. rewrite extract_pair_eq.
  destruct (skipws l) as [|c s]; cbn [first_char]; [reflexivity|].
  intros H. apply Ascii.eqb_eq in H. subst c.
  now rewrite hash_not_numeric, convert_empty.
Qed.

Lemma blank_reads_nothing l :
  is_blank l = true -> snd (extract_pair l) = EmptyString.
Proof.
  unfold is_blank. rewrite extract_pair_eq.
  intros H. apply is_empty_true in H. now rewrite H.
Qed.

Lemma first_word_boundary_blank r :
  tokens r = [] -> first_word r = EmptyString.
Proof. intros H. now rewrite first_word_tokens, H. Qed.

(** A line of one token gives a path only when a number is read from
    the front of the token and characters of the token are left over. *)
Lemma one_token_reads_nothing l tok :
  tokens l = [tok] -> number_then_more tok = false ->
  snd (extract_pair l) = EmptyString.
Proof.
  intros Htok Hn.
  assert (Hne : skipws l <> EmptyString).
  { intros E. rewrite tokens_step, E in Htok. discriminate. }
  destruct (line_first_token l Hne) as (tok' & r & E1 & Ht & Hr & Htok').
  rewrite Htok in Htok'. injection Htok' as <- Hr'.
  rewrite (extract_pair_token l tok r E1 Ht Hr). cbn [snd].
  unfold number_then_more in Hn.
  destruct (number_extracted tok); [|reflexivity].
  cbn [andb] in Hn. apply negb_false_iff, is_empty_true in Hn. rewrite Hn.
  apply first_word_boundary_blank. now symmetry.
Qed.

Lemma without_entry_reads_nothing l :
  without_entry l -> snd (extract_pair l) = EmptyString.
Proof.
  intros [H|[H|(tok & H1 & H2)]].
  - now apply comment_reads_nothing.
  - now apply blank_reads_nothing.
  - now apply (one_token_reads_nothing l tok).
Qed.

Lemma process_line_nothing v l :
  snd (extract_pair l) = EmptyString -> process_line v l = v.
Proof.
  intros H. destruct (process_line_cases v l) as [[E _]|(t & _ & _ & N)]; congruence.
Qed.

Lemma read_all_nothing lines : forall v,
  Forall (fun l => snd (extract_pair l) = EmptyString) lines ->
  fold_left process_line lines v = v.
Proof.
  induction lines as [|l lines IH]; intros v H; [reflexivity|].
  inversion H; subst. cbn [fold_left]. rewrite process_line_nothing by assumption.
  now apply IH.
Qed.

(** ** Claims on [LoadImages] *)

(** C7. An empty line, and a line whose first character that is not
    whitespace is '#', produces no entry, whatever else the line holds. *)
Theorem comment_or_empty_line_gives_no_entry (v : Vectors) (l : string) :
  is_empty l = true \/ is_comment l = true -> process_line v l = v.
Proof.
  intros [H|H].
  - unfold process_line. now rewrite H.
  - apply process_line_nothing. now apply comment_reads_nothing.
Qed.

Lemma comment_or_empty_line_gives_no_entry_witness :
  process_line (mk_Vectors ["img0.png"] [dzero]) "   # 0.1 img1.png"
  = mk_Vectors ["img0.png"] [dzero].
Proof.
  apply (comment_or_empty_line_gives_no_entry
           (mk_Vectors ["img0.png"] [dzero]) "   # 0.1 img1.png").
  right. reflexivity.
Defined.

Lemma fold_process_line_lengths lines : forall v,
  List.length (vstrImageFilenames v) = List.length (vTimestamps v) ->
  List.length (vstrImageFilenames (fold_left process_line lines v))
  = List.length (vTimestamps (fold_left process_line lines v)).
Proof.
  induction lines as [|l lines IH]; intros v H; [exact H|].
  cbn [fold_left]. apply IH.
  destruct (process_line_cases v l) as [[E _]|(t & E & _)]; rewrite E; [exact H|].
  cbn. rewrite !length_app. cbn. lia.
Qed.

(** C8. The two sequences have the same length when [LoadImages] returns,
    and after each single line: a line appends a timestamp exactly when it
    appends a path. *)
Theorem timestamps_and_paths_stay_parallel (w : World) (path : string) (v : Vectors) :
  List.length (vstrImageFilenames v) = List.length (vTimestamps v) ->
  (let v' := snd (LoadImages w path v) in
   List.length (vstrImageFilenames v') = List.length (vTimestamps v'))
  /\ (forall content k,
        let vk := fold_left process_line (firstn k (split_lines content)) v in
        List.length (vstrImageFilenames vk) = List.length (vTimestamps vk))
  /\ (forall u l,
        process_line u l = u
        \/ exists p t, process_line u l =
                       mk_Vectors (vstrImageFilenames u ++ [p]) (vTimestamps u ++ [t])).
Proof.
  intros H. repeat split.
  - unfold LoadImages. destruct (open_file w path); cbn [snd]; [|exact H].
    now apply fold_process_line_lengths.
  - intros content k. now apply fold_process_line_lengths.
  - intros u l. destruct (process_line_cases u l) as [[E _]|(t & E & _)]; eauto.
Qed.

Lemma timestamps_and_paths_stay_parallel_witness :
  let v' := snd (LoadImages glued_world "associations.txt" (mk_Vectors [] [])) in
  List.length (vstrImageFilenames v') = List.length (vTimestamps v').
Proof.
  apply (timestamps_and_paths_stay_parallel
           glued_world "associations.txt" (mk_Vectors [] [])).
  reflexivity.
Defined.

(** C9, as stated, fails: the only token of [0.1;img0.png] does not parse
    as a floating-point number, and the line is appended all the same, with
    the timestamp read off the front of the token and the rest of the token
    as the path. *)
Lemma glued_token_is_appended :
  is_data_line glued_line = true
  /\ first_token glued_line = Some glued_line
  /\ parses_as_double glued_line = false
  /\ process_line (mk_Vectors [] []) glued_line
     = mk_Vectors [";img0.png"] [S754_finite false 7205759403792794 (-56)].
Proof. repeat split. Qed.

(** C9, amended. When the line is looked into and no number can be read
    off the front of its first token (or there is no token), the extraction
    of the number leaves the stream failed, the extraction of the path then
    stores nothing, so the path stays empty, and no entry is appended. *)
Theorem line_without_number_gives_no_entry (v : Vectors) (l : string) :
  is_data_line l = true ->
  match first_token l with
  | Some tok => number_extracted tok = false
  | None => True
  end ->
  let ss := fst (extract_double (of_string l)) in
  failbit ss = true
  /\ snd (extract_string ss) = None
  /\ snd (extract_pair l) = EmptyString
  /\ process_line v l = v.
Proof.
  intros _ H.
  assert (F : failbit (fst (extract_double (of_string l))) = true).
  { rewrite extract_double_eq. destruct (skipws l) as [|c s] eqn:E; [reflexivity|].
    assert (Hne : skipws l <> EmptyString) by congruence.
    destruct (line_first_token l Hne) as (tok & r & E1 & Ht & Hr & Htok).
    unfold first_token in H. rewrite Htok in H. cbn in H.
    rewrite <- E, E1, (extract_float_app tok r Hr).
    unfold number_extracted in H.
    destruct (convert_to_v (fst (extract_float tok))) as [x err]. cbn in *.
    now apply negb_false_iff in H. }
  assert (N : snd (extract_string (fst (extract_double (of_string l)))) = None)
    by now apply extract_string_failed.
  assert (P : snd (extract_pair l) = EmptyString).
  { unfold extract_pair. destruct (extract_double (of_string l)) as [ss t].
    cbn [fst] in N. destruct (extract_string ss) as [ss2 r]. cbn [snd] in *.
    now rewrite N. }
  repeat split; try assumption. now apply process_line_nothing.
Qed.

Lemma line_without_number_gives_no_entry_witness :
  process_line (mk_Vectors [] []) "abc img0.png" = mk_Vectors [] [].
Proof.
  apply (line_without_number_gives_no_entry (mk_Vectors [] []) "abc img0.png");
    reflexivity.
Defined.

Lemma starts_with_hash_is_comment l :
  starts_with_hash l = true -> is_comment l = true.
Proof.
  destruct l as [|c s]; [discriminate|]. unfold starts_with_hash, is_comment.
  cbn [first_char]. intros H. pose proof H as H'. apply Ascii.eqb_eq in H'. subst c.
  exact H.
Qed.

Lemma comment_is_comment r l : comment r l = true -> is_comment l = true.
Proof. destruct r; [apply starts_with_hash_is_comment|auto]. Qed.

Lemma candidate_is_data_line r l : candidate r l = true -> is_data_line l = true.
Proof.
  unfold candidate, is_data_line. intros H. apply andb_true_iff in H. destruct H as [E C].
  rewrite E. cbn [andb]. destruct r; cbn [comment] in C; [exact C|].
  destruct (starts_with_hash l) eqn:S; [|reflexivity].
  apply starts_with_hash_is_comment in S. now rewrite S in C.
Qed.

Lemma not_candidate_nothing r l :
  candidate r l = false -> snd (extract_pair l) = EmptyString.
Proof.
  unfold candidate. intros H. apply andb_false_iff in H. destruct H as [E|C].
  - apply negb_false_iff, is_empty_true in E. now subst l.
  - apply negb_false_iff in C. now apply comment_reads_nothing, (comment_is_comment r).
Qed.

(** A well-formed line gives the entry the specification describes. *)
Lemma process_line_entry r v l :
  (candidate r l = true ->
   forall tok, first_token l = Some tok -> parses_as_double tok = true) ->
  process_line v l =
  mk_Vectors (vstrImageFilenames v ++ map snd (entry_of_line r l))
             (vTimestamps v ++ map fst (entry_of_line r l)).
Proof.
  intros Hwf. unfold entry_of_line, entry_of_tokens.
  destruct (candidate r l) eqn:D.
  2:{ cbn [map]. rewrite vectors_app_nil. apply process_line_nothing.
      now apply (not_candidate_nothing r). }
  specialize (Hwf eq_refl). apply candidate_is_data_line in D.
  destruct (skipws l) as [|c s] eqn:E.
  { rewrite (tokens_step l), E. cbn [map]. rewrite vectors_app_nil.
    apply process_line_nothing. now rewrite extract_pair_eq, E. }
  assert (Hne : skipws l <> EmptyString) by congruence.
  destruct (line_first_token l Hne) as (tok & r' & E1 & Ht & Hr & Htok).
  specialize (Hwf tok). unfold first_token in Hwf. rewrite Htok in Hwf.
  specialize (Hwf eq_refl). unfold parses_as_double in Hwf.
  apply andb_true_iff in Hwf. destruct Hwf as [Hnum Hall].
  apply is_empty_true in Hall.
  pose proof (extract_pair_token l tok r' E1 Ht Hr) as EP.
  rewrite Hnum, Hall in EP. cbn [append] in EP. rewrite first_word_tokens in EP.
  rewrite Htok. destruct (tokens r') as [|t2 ts] eqn:Er.
  - cbn [map]. rewrite vectors_app_nil. apply process_line_nothing. now rewrite EP.
  - cbn [map fst snd]. unfold process_line. fold (is_data_line l). rewrite D, EP.
    assert (N2 : t2 <> EmptyString).
    { apply (tokens_nonempty r'). rewrite Er. now left. }
    now rewrite (is_empty_false t2 N2).
Qed.

Lemma read_all_entries r lines : forall v,
  (forall l tok, In l lines -> candidate r l = true ->
                 first_token l = Some tok -> parses_as_double tok = true) ->
  fold_left process_line lines v =
  mk_Vectors (vstrImageFilenames v ++ map snd (flat_map (entry_of_line r) lines))
             (vTimestamps v ++ map fst (flat_map (entry_of_line r) lines)).
Proof.
  induction lines as [|l lines IH]; intros v H.
  - cbn. symmetry. apply vectors_app_nil.
  - cbn [fold_left flat_map]. rewrite IH by (intros; eapply H; eauto; now right).
    rewrite (process_line_entry r) by (intros; eapply H; eauto; now left).
    cbn [vstrImageFilenames vTimestamps]. now rewrite !map_app, !app_assoc.
Qed.

Lemma entries_counted r lines :
  List.length (flat_map (entry_of_line r) lines)
  = List.length (filter (counted r) lines).
Proof.
  induction lines as [|l lines IH]; [reflexivity|].
  cbn [flat_map filter]. rewrite length_app, IH.
  unfold entry_of_line, entry_of_tokens, counted, second_token.
  destruct (candidate r l); [|reflexivity].
  now destruct (tokens l) as [|t1 [|t2 ts]].
Qed.

(** C2. For a well-formed association file, [LoadImages] fills the vectors
    with one entry for each line that is not empty, does not begin with
    '#' and has a second token, in the order of the file: the timestamp is
    the number of the first token, the path is the second token as it is,
    and further tokens are ignored.  This holds for either reading [r] of
    "comment" and "begins with '#'". *)
Theorem well_formed_manifest_entries
  (r : reading) (w : World) (path content : string) :
  open_file w path = Some content ->
  well_formed r content ->
  let v := snd (LoadImages w path (mk_Vectors [] [])) in
  vTimestamps v = map fst (entries r content)
  /\ vstrImageFilenames v = map snd (entries r content)
  /\ List.length (vstrImageFilenames v)
     = List.length (filter (counted r) (split_lines content))
  /\ List.length (vTimestamps v)
     = List.length (filter (counted r) (split_lines content)).
Proof.
  intros Ho Hwf. unfold LoadImages. rewrite Ho. cbn [snd]. unfold read_all.
  rewrite (read_all_entries r (split_lines content)) by exact Hwf.
  cbn [vTimestamps vstrImageFilenames app]. fold (entries r content).
  repeat split; rewrite length_map; apply entries_counted.
Qed.

Lemma well_formed_manifest_entries_witness :
  let v := snd (LoadImages example_world "associations.txt" (mk_Vectors [] [])) in
  vTimestamps v = map fst (entries FirstCharacter manifest_example)
  /\ vstrImageFilenames v = map snd (entries FirstCharacter manifest_example)
  /\ List.length (vstrImageFilenames v)
     = List.length (filter (counted FirstCharacter) (split_lines manifest_example))
  /\ List.length (vTimestamps v)
     = List.length (filter (counted FirstCharacter) (split_lines manifest_example)).
Proof.
  apply (well_formed_manifest_entries
           FirstCharacter example_world "associations.txt" manifest_example).
  - reflexivity.
  - intros l tok Hin Hd Ht. vm_compute in Hin.
    repeat (destruct Hin as [<-|Hin];
            [try discriminate Hd; injection Ht as <-; reflexivity|]).
    contradiction.
Defined.

(** ** The main loop *)

Section Run.

Variable w : World.
Variable argv : list string.

Let v := loaded w argv.
Let N := image_count w argv.
Let scale := image_scale w.

Lemma frame_decoded ni :
  decodes w argv ni = true ->
  frame w v N scale ni =
  ([Imread (filename v ni)]
     ++ fst (scaled scale (imread w (filename v ni)))
     ++ [tracked w argv ni] ++ wait w v N ni,
   Some (sample w ni)).
Proof.
  unfold decodes, frame, tracked. fold v scale. intros H.
  apply negb_true_iff in H. rewrite H.
  now destruct (scaled scale (imread w (filename v ni))).
Qed.

Lemma frame_failed ni :
  decodes w argv ni = false ->
  frame w v N scale ni = ([Imread (filename v ni); decode_error (filename v ni)], None).
Proof.
  unfold decodes, frame. fold v. intros H.
  apply negb_false_iff in H. now rewrite H.
Qed.

Lemma iteration_decoded ni :
  decodes w argv ni = true ->
  iteration w argv ni =
  [Imread (filename v ni)]
    ++ fst (scaled scale (imread w (filename v ni)))
    ++ [tracked w argv ni] ++ wait w v N ni.
Proof. intros H. unfold iteration. fold v N scale. now rewrite frame_decoded. Qed.

(** The loop over [done ++ todo], when every image of [done] decodes. *)
Lemma frames_app done : forall todo vt,
  (forall j, In j done -> decodes w argv j = true) ->
  frames w v N scale (done ++ todo) vt =
  (flat_map (iteration w argv) done
     ++ fst (frames w v N scale todo (store_samples w done vt)),
   snd (frames w v N scale todo (store_samples w done vt))).
Proof.
  induction done as [|ni done IH]; intros todo vt H.
  - cbn. now destruct (frames w v N scale todo vt).
  - cbn [app frames flat_map store_samples fold_left].
    rewrite (iteration_decoded ni), (frame_decoded ni) by (apply H; now left).
    rewrite IH by (intros; apply H; now right). cbn [fst snd].
    unfold store_samples. now rewrite <- !app_assoc.
Qed.

Lemma frames_complete todo vt :
  (forall j, In j todo -> decodes w argv j = true) ->
  frames w v N scale todo vt =
  (flat_map (iteration w argv) todo, Some (store_samples w todo vt)).
Proof.
  intros H. rewrite <- (app_nil_r todo) at 1. rewrite frames_app by assumption.
  cbn. now rewrite app_nil_r.
Qed.

Lemma frames_abort done i todo vt :
  (forall j, In j done -> decodes w argv j = true) ->
  decodes w argv i = false ->
  frames w v N scale (done ++ i :: todo) vt =
  (flat_map (iteration w argv) done
     ++ [Imread (filename v i); decode_error (filename v i)], None).
Proof.
  intros H F. rewrite frames_app by assumption.
  cbn [frames]. now rewrite (frame_failed i F).
Qed.

(** The events of the loop start with the decoding of an image. *)
Lemma frames_head todo vt :
  match fst (frames w v N scale todo vt) with
  | e :: _ => is_imread e = true
  | [] => True
  end.
Proof.
  destruct todo as [|ni todo]; [exact I|]. cbn [frames].
  unfold frame. destruct (Mat_empty (imread w (filename v ni))); [exact eq_refl|].
  destruct (scaled scale (imread w (filename v ni))) as [ev im'].
  now destruct (frames w v N scale todo (vector_set vt ni (float_of_double (ttrack w ni)))).
Qed.

End Run.

(** ** Vectors *)

Lemma vector_set_app {A} (l1 : list A) : forall a y l2 x,
  List.length l1 = a -> vector_set (l1 ++ y :: l2) a x = l1 ++ x :: l2.
Proof.
  induction l1 as [|z l1 IH]; intros a y l2 x H; subst a; cbn; [reflexivity|].
  f_equal. now apply IH.
Qed.

Lemma store_samples_fill w n : forall a done rest,
  List.length done = a -> List.length rest = n ->
  store_samples w (seq a n) (done ++ rest) = done ++ map (sample w) (seq a n).
Proof.
  induction n as [|n IH]; intros a done rest Ha Hr.
  - destruct rest; [|discriminate]. reflexivity.
  - destruct rest as [|y rest]; [discriminate|]. injection Hr as Hr.
    cbn [seq map]. unfold store_samples in *. cbn [fold_left].
    rewrite (vector_set_app done a y rest _ Ha).
    change (done ++ sample w a :: rest) with (done ++ [sample w a] ++ rest).
    rewrite app_assoc, (IH (S a)); [now rewrite <- app_assoc| |assumption].
    rewrite length_app. cbn. lia.
Qed.

Lemma store_samples_all w n :
  store_samples w (seq 0 n) (repeat fzero n) = map (sample w) (seq 0 n).
Proof.
  apply (store_samples_fill w n 0 [] (repeat fzero n)); [reflexivity|].
  apply repeat_length.
Qed.

(** ** [main], by cases *)

Lemma main_eq w argv :
  main w argv =
  if negb (argc argv =? 4) then ([Cerr usage], 1)
  else if image_count w argv <=? 0 then
    (fst (LoadImages w (arg argv 3) (mk_Vectors [] []))
       ++ [Cerr ("ERROR: No images found in association file." ++ endl)%string], 1)
  else
    let n := Z.to_nat (image_count w argv) in
    match frames w (loaded w argv) (image_count w argv) (image_scale w)
                 (seq 0 n) (repeat fzero n) with
    | (ev, None) => (prologue w argv ++ ev, 1)
    | (ev, Some vt) => (prologue w argv ++ ev ++ epilogue (image_count w argv) vt, 0)
    end.
Proof.
  unfold prologue, epilogue. unfold main, image_count, loaded.
  destruct (negb (argc argv =? 4)); [reflexivity|].
  destruct (LoadImages w (arg argv 3) (mk_Vectors [] [])) as [ev0 v]. cbn [fst snd].
  destruct (int_of_size (List.length (vstrImageFilenames v)) <=? 0); [reflexivity|].
  cbv zeta.
  now destruct (frames w v _ _ _ _) as [ev [vt|]].
Qed.

Lemma enters_loop_spec w argv :
  enters_loop w argv = true ->
  negb (argc argv =? 4) = false /\ (image_count w argv <=? 0) = false
  /\ 0 < image_count w argv.
Proof.
  unfold enters_loop. intros H. apply andb_true_iff in H. destruct H as [A B].
  apply negb_true_iff in B. rewrite A. repeat split; [assumption|].
  apply Z.leb_gt in B. lia.
Qed.

(** Every image decodes, or there is a first one that does not. *)
Lemma first_failure w argv n :
  (forall j, (j < n)%nat -> decodes w argv j = true)
  \/ exists i, (i < n)%nat /\ decodes w argv i = false
               /\ forall j, (j < i)%nat -> decodes w argv j = true.
Proof.
  induction n as [|n [IH|(i & Hi & F & B)]].
  - left. intros j Hj. lia.
  - destruct (decodes w argv n) eqn:D.
    + left. intros j Hj. assert (j = n \/ j < n)%nat as [->|Hlt] by lia; auto.
    + right. exists n. auto.
  - right. exists i. auto.
Qed.

(** The run when every image decodes. *)
Lemma main_complete w argv :
  enters_loop w argv = true ->
  (forall j, (j < Z.to_nat (image_count w argv))%nat -> decodes w argv j = true) ->
  main w argv =
  (prologue w argv
     ++ flat_map (iteration w argv) (seq 0 (Z.to_nat (image_count w argv)))
     ++ epilogue (image_count w argv)
                 (map (sample w) (seq 0 (Z.to_nat (image_count w argv)))), 0).
Proof.
  intros He Hd. destruct (enters_loop_spec w argv He) as (A & B & _).
  rewrite main_eq, A, B. cbv zeta.
  rewrite frames_complete by (intros j Hj; apply Hd; apply in_seq in Hj; lia).
  now rewrite store_samples_all.
Qed.

(** The run when the image of entry [i] is the first that does not decode. *)
Lemma main_abort w argv i :
  enters_loop w argv = true ->
  (i < Z.to_nat (image_count w argv))%nat ->
  (forall j, (j < i)%nat -> decodes w argv j = true) ->
  decodes w argv i = false ->
  main w argv =
  (prologue w argv
     ++ flat_map (iteration w argv) (seq 0 i)
     ++ [Imread (filename (loaded w argv) i);
         decode_error (filename (loaded w argv) i)], 1).
Proof.
  intros He Hi Hd F. destruct (enters_loop_spec w argv He) as (A & B & _).
  rewrite main_eq, A, B. cbv zeta.
  replace (Z.to_nat (image_count w argv)) with (i + S (Z.to_nat (image_count w argv) - S i))%nat
    at 1 by lia.
  rewrite seq_app. cbn [seq plus].
  rewrite frames_abort; [reflexivity| |assumption].
  intros j Hj. apply Hd. apply in_seq in Hj. lia.
Qed.

Lemma main_trace w argv :
  enters_loop w argv = true ->
  let n := Z.to_nat (image_count w argv) in
  let F := frames w (loaded w argv) (image_count w argv) (image_scale w)
                  (seq 0 n) (repeat fzero n) in
  fst (main w argv) =
  prologue w argv ++ fst F
    ++ match snd F with
       | Some vt => epilogue (image_count w argv) vt
       | None => []
       end.
Proof.
  intros He. destruct (enters_loop_spec w argv He) as (A & B & _).
  rewrite main_eq, A, B. cbv zeta.
  destruct (frames w _ _ _ _ _) as [ev [vt|]]; cbn [fst snd]; [reflexivity|].
  now rewrite app_nil_r.
Qed.

(** ** Counting events *)

Lemma filter_none {A} (f : A -> bool) l :
  Forall (fun x => f x = false) l -> filter f l = [].
Proof.
  induction 1 as [|x l Hx _ IH]; [reflexivity|]. cbn. now rewrite Hx.
Qed.

Lemma filter_flat_map {A B} (f : B -> bool) (g : A -> list B) (h : A -> B) l :
  (forall x, In x l -> filter f (g x) = [h x]) ->
  filter f (flat_map g l) = map h l.
Proof.
  induction l as [|x l IH]; intros H; [reflexivity|].
  cbn [flat_map map]. rewrite filter_app, H by now left.
  cbn. f_equal. apply IH. intros y Hy. apply H. now right.
Qed.

Lemma filter_flat_map_none {A B} (f : B -> bool) (g : A -> list B) l :
  (forall x, In x l -> filter f (g x) = []) ->
  filter f (flat_map g l) = [].
Proof.
  induction l as [|x l IH]; intros H; [reflexivity|].
  cbn [flat_map]. rewrite filter_app, H by now left.
  apply IH. intros y Hy. apply H. now right.
Qed.

Lemma LoadImages_events w path v :
  Forall (fun e => exists msg, e = Cerr msg) (fst (LoadImages w path v)).
Proof.
  unfold LoadImages. destruct (open_file w path); cbn [fst]; repeat constructor.
  eexists. reflexivity.
Qed.

Lemma prologue_filter (f : event -> bool) w argv :
  (forall msg, f (Cerr msg) = false) -> (forall msg, f (Cout msg) = false) ->
  (forall n, f (CoutInt n) = false) -> f GetImageScale = false ->
  (forall a b c d, f (SystemCtor a b c d) = false) ->
  filter f (prologue w argv) = [].
Proof.
  intros H1 H2 H3 H4 H5. unfold prologue, banner. rewrite !filter_app.
  rewrite (filter_none f (fst _)).
  - cbn. now rewrite !H2, H3, H4, H5.
  - eapply Forall_impl; [|apply LoadImages_events]. intros e [msg ->]. apply H1.
Qed.

Section Events.

Variable w : World.
Variable argv : list string.
Variable ni : nat.
Hypothesis D : decodes w argv ni = true.

Lemma iteration_tracks :
  filter is_track (iteration w argv ni) = [tracked w argv ni].
Proof.
  rewrite iteration_decoded by exact D. unfold scaled, wait, tracked.
  destruct (negb (feq (image_scale w) fone)); destruct (dlt _ _); reflexivity.
Qed.

Lemma iteration_imreads :
  filter is_imread (iteration w argv ni) = [Imread (filename (loaded w argv) ni)].
Proof.
  rewrite iteration_decoded by exact D. unfold scaled, wait, tracked.
  destruct (negb (feq (image_scale w) fone)); destruct (dlt _ _); reflexivity.
Qed.

Lemma iteration_no_shutdown :
  filter is_shutdown_or_export (iteration w argv ni) = [].
Proof.
  rewrite iteration_decoded by exact D. unfold scaled, wait, tracked.
  destruct (negb (feq (image_scale w) fone)); destruct (dlt _ _); reflexivity.
Qed.

End Events.

(** ** Claims on the run *)

Lemma enters_loop_intro w argv i :
  argc argv = 4 -> Z.of_nat i < image_count w argv ->
  enters_loop w argv = true /\ (i < Z.to_nat (image_count w argv))%nat.
Proof.
  intros A H. unfold enters_loop. rewrite A. cbn. split; [|lia].
  apply negb_true_iff, Z.leb_gt. lia.
Qed.

(** C3. When the image of entry [i] is the first that decodes to an empty
    matrix, the run ends with exit code 1 right after the message that
    names its path: the entries after [i] are not read, the engine has
    tracked the entries before [i] only, and it is neither shut down nor
    asked for a trajectory. *)
Theorem decode_failure_aborts_run (w : World) (argv : list string) (i : nat) :
  argc argv = 4 ->
  Z.of_nat i < image_count w argv ->
  (forall j, (j < i)%nat -> decodes w argv j = true) ->
  decodes w argv i = false ->
  let p := filename (loaded w argv) i in
  let trace := fst (main w argv) in
  snd (main w argv) = 1
  /\ trace = prologue w argv ++ flat_map (iteration w argv) (seq 0 i)
             ++ [Imread p; Cerr (endl ++ "Failed to load image at: " ++ p ++ endl)%string]
  /\ filter is_imread trace
     = map (fun j => Imread (filename (loaded w argv) j)) (seq 0 (S i))
  /\ filter is_track trace = map (tracked w argv) (seq 0 i)
  /\ filter is_shutdown_or_export trace = [].
Proof.
  intros A Hi Hd F p trace.
  destruct (enters_loop_intro w argv i A Hi) as [He Hn].
  assert (M := main_abort w argv i He Hn Hd F).
  subst trace. rewrite M. cbn [fst snd]. fold p.
  assert (Hin : forall j, In j (seq 0 i) -> decodes w argv j = true).
  { intros j Hj. apply Hd. apply in_seq in Hj. lia. }
  repeat split.
  - rewrite !filter_app, prologue_filter by reflexivity.
    rewrite (filter_flat_map _ _ (fun j => Imread (filename (loaded w argv) j)))
      by (intros j Hj; apply iteration_imreads; auto).
    rewrite seq_S, map_app. reflexivity.
  - rewrite !filter_app, prologue_filter by reflexivity.
    rewrite (filter_flat_map _ _ (tracked w argv))
      by (intros j Hj; apply iteration_tracks; auto).
    cbn. now rewrite app_nil_r.
  - rewrite !filter_app, prologue_filter by reflexivity.
    now rewrite filter_flat_map_none by (intros j Hj; apply iteration_no_shutdown; auto).
Qed.

Lemma decode_failure_aborts_run_witness :
  snd (main example_world example_argv) = 1
  /\ filter is_track (fst (main example_world example_argv))
     = map (tracked example_world example_argv) (seq 0 1)
  /\ filter is_shutdown_or_export (fst (main example_world example_argv)) = [].
Proof.
  assert (A : argc example_argv = 4) by reflexivity.
  assert (B : Z.of_nat 1 < image_count example_world example_argv)
    by (vm_compute; reflexivity).
  assert (C : forall j, (j < 1)%nat -> decodes example_world example_argv j = true).
  { intros j Hj. destruct j; [reflexivity|lia]. }
  assert (F : decodes example_world example_argv 1 = false) by reflexivity.
  destruct (decode_failure_aborts_run example_world example_argv 1 A B C F)
    as (H1 & _ & _ & H4 & H5).
  repeat split; assumption.
Defined.

Lemma loaded_nothing w argv :
  (open_file w (arg argv 3) = None
   \/ exists content, open_file w (arg argv 3) = Some content
                      /\ Forall without_entry (split_lines content)) ->
  loaded w argv = mk_Vectors [] [].
Proof.
  unfold loaded, LoadImages. intros [H|(content & H & Hl)]; rewrite H; cbn [snd].
  - reflexivity.
  - apply read_all_nothing. eapply Forall_impl; [|exact Hl].
    intros l. apply without_entry_reads_nothing.
Qed.

(** C4, as stated, fails: the association file whose only line is
    [0.1;img0.png] has no line with a second token, and yet one entry is
    loaded, the engine is started and the run ends with exit code 0. *)
Lemma glued_manifest_starts_engine :
  argc example_argv = 4
  /\ open_file glued_world (arg example_argv 3) = Some glued_line
  /\ Forall without_entry_as_stated (split_lines glued_line)
  /\ loaded glued_world example_argv
     = mk_Vectors [";img0.png"] [S754_finite false 7205759403792794 (-56)]
  /\ filter is_engine_start (fst (main glued_world example_argv))
     = [SystemCtor "ORBvoc.txt" "harbor_fisheye.yaml" MONOCULAR true]
  /\ snd (main glued_world example_argv) = 0.
Proof.
  split; [reflexivity|]. split; [reflexivity|]. split.
  - constructor; [right; right; reflexivity|constructor].
  - repeat split.
Qed.

(** C4, amended. When the association file cannot be opened, or every one
    of its lines is a comment, blank, or a single token that is not a
    number followed by more characters, no entry is loaded and the run
    writes its error messages and ends with exit code 1 without starting
    the engine: nothing but error messages is produced.  When the file
    cannot be opened [LoadImages] leaves the vectors as they are. *)
Theorem no_entry_stops_before_engine (w : World) (argv : list string) :
  argc argv = 4 ->
  (open_file w (arg argv 3) = None
   \/ exists content, open_file w (arg argv 3) = Some content
                      /\ Forall without_entry (split_lines content)) ->
  let trace := fst (main w argv) in
  loaded w argv = mk_Vectors [] []
  /\ snd (main w argv) = 1
  /\ (exists before,
        trace = before ++ [Cerr ("ERROR: No images found in association file." ++ endl)%string])
  /\ Forall (fun e => exists msg, e = Cerr msg) trace
  /\ filter is_engine_start trace = []
  /\ (open_file w (arg argv 3) = None ->
      forall v, snd (LoadImages w (arg argv 3) v) = v).
Proof.
  intros A H trace. pose proof (loaded_nothing w argv H) as L.
  assert (N : (image_count w argv <=? 0) = true).
  { unfold image_count. now rewrite L. }
  assert (M := main_eq w argv). rewrite A, N in M. cbn [Z.eqb negb] in M.
  change (4 =? 4) with true in M. cbn [negb] in M.
  subst trace. rewrite M. cbn [fst snd].
  assert (E : Forall (fun e => exists msg, e = Cerr msg)
                (fst (LoadImages w (arg argv 3) (mk_Vectors [] []))
                 ++ [Cerr ("ERROR: No images found in association file." ++ endl)%string])).
  { apply Forall_app. split; [apply LoadImages_events|]. repeat constructor. now eexists. }
  repeat split.
  - assumption.
  - now eexists.
  - assumption.
  - apply filter_none. eapply Forall_impl; [|exact E]. now intros e [msg ->].
  - intros O v. unfold LoadImages. now rewrite O.
Qed.

Lemma no_entry_stops_before_engine_witness :
  snd (main closed_world example_argv) = 1
  /\ filter is_engine_start (fst (main closed_world example_argv)) = [].
Proof.
  assert (A : argc example_argv = 4) by reflexivity.
  assert (H : open_file closed_world (arg example_argv 3) = None
              \/ exists content,
                   open_file closed_world (arg example_argv 3) = Some content
                   /\ Forall without_entry (split_lines content))
    by (left; reflexivity).
  destruct (no_entry_stops_before_engine closed_world example_argv A H)
    as (_ & H2 & _ & _ & H5 & _).
  split; assumption.
Defined.

(** ** Indices stay inside the vectors *)

Lemma int_of_size_le n : 0 < int_of_size n -> int_of_size n <= Z.of_nat n.
Proof.
  unfold int_of_size. change (2 ^ 31) with 2147483648. change (2 ^ 32) with 4294967296.
  intros H.
  pose proof (Z.div_mod (Z.of_nat n + 2147483648) 4294967296 ltac:(lia)) as E.
  pose proof (Z.mod_pos_bound (Z.of_nat n + 2147483648) 4294967296 ltac:(lia)) as B.
  assert (0 <= (Z.of_nat n + 2147483648) / 4294967296) by (apply Z.div_pos; lia).
  lia.
Qed.

Lemma loaded_lengths w argv :
  List.length (vstrImageFilenames (loaded w argv))
  = List.length (vTimestamps (loaded w argv)).
Proof.
  unfold loaded, LoadImages. destruct (open_file w (arg argv 3)); cbn [snd]; [|reflexivity].
  now apply fold_process_line_lengths.
Qed.

Lemma index_in_range w argv i :
  Z.of_nat i < image_count w argv ->
  (i < List.length (vstrImageFilenames (loaded w argv)))%nat
  /\ (i < List.length (vTimestamps (loaded w argv)))%nat.
Proof.
  intros H. rewrite <- loaded_lengths.
  assert (image_count w argv <= Z.of_nat (List.length (vstrImageFilenames (loaded w argv))))
    by (apply int_of_size_le; fold (image_count w argv); lia).
  lia.
Qed.

(** A run in which the images of the entries up to [ni] decode goes through
    iteration [ni]; what follows is the decoding of the next image, or the
    shutdown of the engine. *)
Lemma run_through w argv ni :
  enters_loop w argv = true ->
  (ni < Z.to_nat (image_count w argv))%nat ->
  (forall j, (j <= ni)%nat -> decodes w argv j = true) ->
  exists rest,
    fst (main w argv) =
    prologue w argv ++ flat_map (iteration w argv) (seq 0 ni)
      ++ iteration w argv ni ++ rest
    /\ match rest with
       | e :: _ => is_imread e = true \/ e = Shutdown
       | [] => True
       end.
Proof.
  intros He Hn Hd. pose proof (main_trace w argv He) as M. cbv zeta in M.
  assert (S : seq 0 (Z.to_nat (image_count w argv))
              = seq 0 (S ni) ++ seq (S ni) (Z.to_nat (image_count w argv) - S ni)).
  { rewrite <- seq_app. f_equal. lia. }
  rewrite S, frames_app in M by (intros j Hj; apply Hd; apply in_seq in Hj; lia).
  cbn [fst snd] in M. rewrite seq_S, flat_map_app in M. cbn [Nat.add flat_map] in M.
  rewrite app_nil_r in M.
  set (R := frames w (loaded w argv) (image_count w argv) (image_scale w) _ _) in M.
  exists (fst R ++ match snd R with
                   | Some vt => epilogue (image_count w argv) vt
                   | None => []
                   end).
  split; [rewrite M; now rewrite <- !app_assoc|].
  pose proof (frames_head w argv _ _ : match fst R with [] => _ | _ => _ end) as Hh.
  destruct (fst R) as [|e ev]; [|now left].
  destruct (snd R); [now right|exact I].
Qed.

(** C1, as stated, fails: with two entries 5000 seconds apart and an engine
    call of 30 ms, [ttrack < T] and [T - ttrack] is 4999.97 seconds, that
    is 4999970000 microseconds; this is more than the 32 bits of
    [useconds_t] hold, and [usleep] is called with 705002704 microseconds,
    after each of the two frames. *)
Lemma long_gap_sleep_wraps :
  let w := long_gap_world in
  let v := loaded w example_argv in
  let T := pacing v 2 0 in
  let d := ttrack w 0 in
  image_count w example_argv = 2
  /\ dlt d T = true
  /\ truncate (dsub T d) = Some 4999
  /\ truncate (dmul (dsub T d) d1e6) = Some 4999970000
  /\ filter is_usleep (fst (main w example_argv)) = [Usleep 705002704; Usleep 705002704].
Proof. repeat split. Qed.

(** C1, amended. In every iteration [ni] of the main loop that gets to the engine,
    the interval [T] is the next timestamp minus this one when [ni] is not
    the last index, else this timestamp minus the previous one when there
    is one, else 0; directly after the engine call the run sleeps, for
    [T - ttrack], exactly when [ttrack < T], and does not sleep otherwise.
    [usleep] gets the time in whole microseconds: the integer part of
    [(T - ttrack) * 1e6], as long as that is below 2^32. *)
Theorem pacing_of_iteration (w : World) (argv : list string) (ni : nat) :
  argc argv = 4 ->
  Z.of_nat ni < image_count w argv ->
  (forall j, (j <= ni)%nat -> decodes w argv j = true) ->
  let ts := vTimestamps (loaded w argv) in
  let N := image_count w argv in
  let T := if negb (Z.of_nat ni =? N - 1)
           then dsub (nth (ni + 1) ts indeterminate) (nth ni ts indeterminate)
           else if 0 <? Z.of_nat ni
                then dsub (nth ni ts indeterminate) (nth (ni - 1) ts indeterminate)
                else dzero in
  let d := ttrack w ni in
  let usec := useconds_of_double (dmul (dsub T d) d1e6) in
  let sleep := if dlt d T then [Usleep usec] else [] in
  ((ni < List.length ts)%nat
   /\ (Z.of_nat ni <> N - 1 -> (ni + 1 < List.length ts)%nat))
  /\ (forall n, truncate (dmul (dsub T d) d1e6) = Some n -> 0 <= n < 2 ^ 32 -> usec = n)
  /\ exists before after,
       fst (main w argv) = before ++ [tracked w argv ni] ++ sleep ++ after
       /\ filter is_track before = map (tracked w argv) (seq 0 ni)
       /\ match after with e :: _ => is_usleep e = false | [] => True end.
Proof.
  intros A Hi Hd ts N T d usec sleep.
  destruct (enters_loop_intro w argv ni A Hi) as [He Hn].
  split.
  { split; [apply (index_in_range w argv ni Hi)|].
    intros Hl. apply (index_in_range w argv (ni + 1)). subst N. lia. }
  split.
  { intros n Hn' [B0 B1]. subst usec. unfold useconds_of_double. rewrite Hn'.
    destruct (Z.leb_spec (- 2 ^ 63) n); [|lia].
    destruct (Z.ltb_spec n (2 ^ 63)); [|lia].
    apply Z.mod_small. lia. }
  assert (W : wait w (loaded w argv) N ni = sleep).
  { unfold wait, pacing, timestamp. fold ts. subst sleep usec T d.
    destruct (Z.of_nat ni <? N - 1) eqn:E1; destruct (Z.of_nat ni =? N - 1) eqn:E2;
      cbn [negb]; try reflexivity.
    - apply Z.ltb_lt in E1. apply Z.eqb_eq in E2. lia.
    - apply Z.ltb_ge in E1. apply Z.eqb_neq in E2. subst N. lia. }
  destruct (run_through w argv ni He Hn Hd) as (rest & M & Hrest).
  rewrite (iteration_decoded w argv ni) in M by (apply Hd; lia).
  fold N in M. rewrite W in M.
  exists (prologue w argv ++ flat_map (iteration w argv) (seq 0 ni)
          ++ [Imread (filename (loaded w argv) ni)]
          ++ fst (scaled (image_scale w) (imread w (filename (loaded w argv) ni)))).
  exists rest.
  repeat split.
  - rewrite M. now rewrite <- !app_assoc.
  - rewrite !filter_app, prologue_filter by reflexivity.
    rewrite (filter_flat_map _ _ (tracked w argv)).
    + unfold scaled. destruct (negb (feq (image_scale w) fone)); cbn; now rewrite app_nil_r.
    + intros j Hj. apply iteration_tracks. apply Hd. apply in_seq in Hj. lia.
  - destruct rest as [|e rest]; [exact I|]. now destruct Hrest as [H| ->]; [destruct e|].
Qed.

Lemma pacing_of_iteration_witness :
  exists before after,
    fst (main complete_world example_argv)
    = before ++ [tracked complete_world example_argv 2] ++ [Usleep 70000] ++ after
    /\ filter is_track before = map (tracked complete_world example_argv) (seq 0 2)
    /\ match after with e :: _ => is_usleep e = false | [] => True end.
Proof.
  assert (A : argc example_argv = 4) by reflexivity.
  assert (B : Z.of_nat 2 < image_count complete_world example_argv)
    by (vm_compute; reflexivity).
  assert (C : forall j, (j <= 2)%nat -> decodes complete_world example_argv j = true).
  { intros j Hj. destruct j as [|[|[|j]]]; [reflexivity..|lia]. }
  exact (proj2 (proj2 (pacing_of_iteration complete_world example_argv 2 A B C))).
Defined.

(* ================================================================= *)
(** ** Floating point: order *)

Lemma SFcompare_swap x y :
  SFcompare x y = option_map CompOpp (SFcompare y x).
Proof.
  destruct x as [sx|sx| |sx mx ex], y as [sy|sy| |sy my ey]; cbn;
    try reflexivity; try (now destruct sx); try (now destruct sy);
    try (now destruct sx, sy).
  change (Pos.compare_cont Eq mx my) with (mx ?= my)%positive.
  change (Pos.compare_cont Eq my mx) with (my ?= mx)%positive.
  rewrite (Z.compare_antisym ex ey), (Pos.compare_antisym mx my).
  destruct sx, sy; cbn; try reflexivity;
    destruct (ex ?= ey); cbn; try reflexivity;
    destruct (mx ?= my)%positive; reflexivity.
Qed.

Lemma SFcompare_defined x y :
  is_nan x = false -> is_nan y = false -> exists c, SFcompare x y = Some c.
Proof.
  destruct x, y; cbn; intros; try discriminate; eauto.
Qed.

Lemma flt_fle x y : flt x y = true -> fle x y = true.
Proof.
  unfold flt, fle, SFltb, SFleb. now destruct (SFcompare x y) as [[]|].
Qed.

Lemma fle_total x y :
  is_nan x = false -> is_nan y = false -> flt y x = false -> fle x y = true.
Proof.
  intros Hx Hy. unfold flt, fle, SFltb, SFleb. rewrite (SFcompare_swap x y).
  destruct (SFcompare_defined y x Hy Hx) as [c ->]. now destruct c.
Qed.

Lemma fle_trans x y z : fle x y = true -> fle y z = true -> fle x z = true.
Proof.
  unfold fle, SFleb.
  destruct x as [sx|sx| |sx mx ex], y as [sy|sy| |sy my ey], z as [sz|sz| |sz mz ez];
    cbn; try discriminate; try reflexivity;
    try (destruct sx; discriminate || reflexivity);
    try (destruct sy; discriminate || reflexivity);
    try (destruct sz; discriminate || reflexivity);
    try (destruct sx, sy; discriminate || reflexivity);
    try (destruct sy, sz; discriminate || reflexivity);
    try (destruct sx, sz; discriminate || reflexivity);
    try (destruct sx, sy, sz; discriminate || reflexivity).
  change (Pos.compare_cont Eq mx my) with (mx ?= my)%positive.
  change (Pos.compare_cont Eq my mz) with (my ?= mz)%positive.
  change (Pos.compare_cont Eq mx mz) with (mx ?= mz)%positive.
  destruct sx, sy, sz; try discriminate; try reflexivity;
    destruct (Z.compare_spec ex ey), (Z.compare_spec ey ez), (Z.compare_spec ex ez);
    try discriminate; try reflexivity; try lia;
    destruct (Pos.compare_spec mx my), (Pos.compare_spec my mz), (Pos.compare_spec mx mz);
    cbn; try discriminate; try reflexivity; try lia.
Qed.

(** ** [std::sort] *)

Lemma sort_insert_perm x l : Permutation (x :: l) (sort_insert x l).
Proof.
  induction l as [|y l IH]; cbn; [reflexivity|].
  destruct (flt y x); [|reflexivity].
  rewrite perm_swap. now constructor.
Qed.

Lemma std_sort_perm l : Permutation l (std_sort l).
Proof.
  induction l as [|x l IH]; cbn; [reflexivity|].
  rewrite <- sort_insert_perm. now constructor.
Qed.

Lemma std_sort_length l : List.length (std_sort l) = List.length l.
Proof. symmetry. apply Permutation_length, std_sort_perm. Qed.

Lemma sort_insert_sorted x l :
  is_nan x = false -> Forall (fun y => is_nan y = false) l ->
  ascending l -> ascending (sort_insert x l).
Proof.
  intros Hx. induction l as [|y l IH]; intros Hl Hs; cbn.
  - repeat constructor.
  - inversion Hl as [|? ? Hy Hl']; subst. inversion Hs as [|? ? Hs' Hfy]; subst.
    destruct (flt y x) eqn:E.
    + constructor; [now apply IH|].
      apply (Permutation_Forall (sort_insert_perm x l)).
      constructor; [now apply flt_fle|assumption].
    + assert (Hxy : fle x y = true) by now apply fle_total.
      constructor; [assumption|]. constructor; [assumption|].
      eapply Forall_impl; [|exact Hfy]. intros z Hz. now apply (fle_trans x y z).
Qed.

Lemma std_sort_sorted l :
  Forall (fun y => is_nan y = false) l -> ascending (std_sort l).
Proof.
  induction l as [|x l IH]; intros H; cbn; [constructor|].
  inversion H; subst. apply sort_insert_sorted; auto.
  now apply (Permutation_Forall (std_sort_perm l)).
Qed.

(** ** Floating point: rounding never gives NaN *)

Lemma iter_pos_invariant {A} (P : A -> Prop) (f : A -> A) :
  (forall x, P x -> P (f x)) -> forall n x, P x -> P (iter_pos f n x).
Proof.
  intros Hf. induction n as [n IH|n IH|]; intros x Hx; cbn; auto.
Qed.

Lemma shr_1_nonneg mrs : 0 <= shr_m mrs -> 0 <= shr_m (shr_1 mrs).
Proof.
  destruct mrs as [m r s]. cbn. destruct m as [|[p|p|]|[p|p|]]; cbn; lia.
Qed.

Lemma shr_nonneg mrs e n : 0 <= shr_m mrs -> 0 <= shr_m (fst (shr mrs e n)).
Proof.
  intros H. destruct n; cbn; try assumption.
  now apply (iter_pos_invariant (fun r => 0 <= shr_m r) shr_1 shr_1_nonneg).
Qed.

Lemma shr_fexp_nonneg prec emax m e l :
  0 <= m -> 0 <= shr_m (fst (shr_fexp prec emax m e l)).
Proof.
  intros H. unfold shr_fexp. apply shr_nonneg.
  destruct l as [|[]]; exact H.
Qed.

Lemma round_nearest_even_nonneg m l : 0 <= m -> 0 <= round_nearest_even m l.
Proof.
  intros H. unfold round_nearest_even.
  destruct l as [|[]]; try destruct (Z.even m); lia.
Qed.

Lemma binary_round_aux_not_nan prec emax sx mx ex lx :
  0 <= mx -> is_nan (binary_round_aux prec emax sx mx ex lx) = false.
Proof.
  intros H. unfold binary_round_aux.
  pose proof (shr_fexp_nonneg prec emax mx ex lx H) as H1.
  destruct (shr_fexp prec emax mx ex lx) as [mrs' e']. cbn [fst] in H1.
  pose proof (shr_fexp_nonneg prec emax _ e' loc_Exact
                (round_nearest_even_nonneg _ (loc_of_shr_record mrs') H1)) as H2.
  destruct (shr_fexp prec emax _ e' loc_Exact) as [mrs'' e'']. cbn [fst] in H2.
  destruct (shr_m mrs''); [reflexivity| |lia].
  now destruct (e'' <=? emax - prec).
Qed.

Lemma binary_round_not_nan prec emax s m e :
  is_nan (binary_round prec emax s m e) = false.
Proof.
  unfold binary_round. destruct (shl_align _ _ _) as [mz ez].
  apply binary_round_aux_not_nan. lia.
Qed.

Lemma binary_normalize_not_nan prec emax m e sz :
  is_nan (binary_normalize prec emax m e sz) = false.
Proof.
  destruct m; cbn; [reflexivity| |]; apply binary_round_not_nan.
Qed.

Lemma SFdiv_finite_not_nan prec emax x s m e :
  is_nan x = false -> is_nan (SFdiv prec emax x (S754_finite s m e)) = false.
Proof.
  destruct x as [sx|sx| |sx mx ex]; cbn; try reflexivity; try discriminate.
  intros _. unfold SFdiv_core_binary.
  set (m' := match _ with Z0 => Zpos mx | Zpos _ => _ | Zneg _ => 0 end).
  assert (Hm : 0 <= m').
  { subst m'. destruct (_ - _ - _); try lia. apply Z.shiftl_nonneg. lia. }
  pose proof (Z.div_pos m' (Zpos m) Hm ltac:(lia)) as Hq.
  unfold Z.div in Hq. destruct (Z.div_eucl m' (Zpos m)) as [q r].
  now apply binary_round_aux_not_nan.
Qed.

Lemma sample_not_nan w ni : is_nan (sample w ni) = false.
Proof.
  unfold sample, float_of_double.
  assert (H : is_nan (ttrack w ni) = false).
  { unfold ttrack, ddiv. change d1e9 with (S754_finite false 8388608000000000 (-23)).
    apply SFdiv_finite_not_nan. apply binary_normalize_not_nan. }
  destruct (ttrack w ni); try assumption. apply binary_round_not_nan.
Qed.

(** ** Floating point: exact cases of rounding *)

Lemma iter_pos_iter {A} (f : A -> A) n : forall x, iter_pos f n x = Pos.iter f x n.
Proof.
  induction n as [n IH|n IH|]; intros x; cbn; [|now rewrite !IH|reflexivity].
  now rewrite !IH, !Pos.iter_swap.
Qed.

Lemma digits2_pos_size p : digits2_pos p = Pos.size p.
Proof. induction p; cbn; congruence. Qed.

Lemma digits_lower p : 2 ^ (Zpos (digits2_pos p) - 1) <= Zpos p.
Proof.
  induction p as [p IH|p IH|]; cbn [digits2_pos]; [| |cbn; lia];
    rewrite Pos2Z.inj_succ;
    replace (Z.succ (Zpos (digits2_pos p)) - 1) with (Z.succ (Zpos (digits2_pos p) - 1)) by lia;
    rewrite Z.pow_succ_r by lia; lia.
Qed.










(** ** Floating point: a positive integer does not round to zero *)

Lemma shr_1_half mrs : 0 <= shr_m mrs -> shr_m (shr_1 mrs) = shr_m mrs / 2.
Proof.
  destruct mrs as [m r s]. cbn. destruct m as [|[p|p|]|p]; cbn [shr_m]; intros H;
    try reflexivity; try lia.
  - rewrite Pos2Z.inj_xI. apply (Z.div_unique _ 2 _ 1); lia.
  - rewrite Pos2Z.inj_xO. apply (Z.div_unique _ 2 _ 0); lia.
Qed.

Lemma shr_iter_div k : forall mrs,
  0 <= shr_m mrs -> shr_m (iter_pos shr_1 k mrs) = shr_m mrs / 2 ^ Zpos k.
Proof.
  induction k as [|k IH] using Pos.peano_ind; intros mrs H.
  - cbn [iter_pos]. now rewrite shr_1_half.
  - rewrite iter_pos_iter, Pos.iter_succ, <- iter_pos_iter.
    rewrite shr_1_half
      by now apply (iter_pos_invariant (fun r => 0 <= shr_m r) shr_1 shr_1_nonneg).
    rewrite IH by assumption.
    rewrite Pos2Z.inj_succ, Z.pow_succ_r, (Z.mul_comm 2) by lia.
    apply Z.div_div; [apply Z.pow_nonzero|]; lia.
Qed.

Lemma shr_fexp_positive prec emax m e l :
  0 < prec -> emin prec emax <= e ->
  0 < shr_m (fst (shr_fexp prec emax (Zpos m) e l))
  /\ emin prec emax <= snd (shr_fexp prec emax (Zpos m) e l).
Proof.
  intros Hp He. unfold shr_fexp, shr. cbn [Zdigits2].
  assert (M : shr_m (shr_record_of_loc (Zpos m) l) = Zpos m) by now destruct l as [|[]].
  destruct (fexp prec emax (Zpos (digits2_pos m) + e) - e) as [|k|k] eqn:E;
    cbn [fst snd]; try (rewrite M; split; [lia|assumption]).
  rewrite shr_iter_div, M by (rewrite M; lia).
  pose proof (digits_lower m) as Hl.
  assert (Hk : Zpos k <= Zpos (digits2_pos m) - 1) by (unfold fexp in E; lia).
  assert (2 ^ Zpos k <= 2 ^ (Zpos (digits2_pos m) - 1)) by (apply Z.pow_le_mono_r; lia).
  split; [|lia]. apply Z.div_str_pos. split; [apply Z.pow_pos_nonneg|]; lia.
Qed.

Lemma binary_round_aux_nonzero prec emax s m e l :
  0 < prec -> emin prec emax <= e ->
  is_zero (binary_round_aux prec emax s (Zpos m) e l) = false.
Proof.
  intros Hp He. unfold binary_round_aux.
  destruct (shr_fexp_positive prec emax m e l Hp He) as [H1 H1'].
  destruct (shr_fexp prec emax (Zpos m) e l) as [mrs' e']. cbn [fst snd] in H1, H1'.
  assert (R : 0 < round_nearest_even (shr_m mrs') (loc_of_shr_record mrs')).
  { unfold round_nearest_even. destruct (loc_of_shr_record mrs') as [|[]];
      try destruct (Z.even (shr_m mrs')); lia. }
  destruct (round_nearest_even (shr_m mrs') (loc_of_shr_record mrs')) as [|m1|m1]; try lia.
  destruct (shr_fexp_positive prec emax m1 e' loc_Exact Hp H1') as [H2 _].
  destruct (shr_fexp prec emax (Zpos m1) e' loc_Exact) as [mrs'' e'']. cbn [fst] in H2.
  destruct (shr_m mrs''); try lia. now destruct (e'' <=? emax - prec).
Qed.

Lemma float_of_Z_nonzero n :
  0 < n -> is_zero (float_of_Z n) = false /\ is_nan (float_of_Z n) = false.
Proof.
  intros H. split; [|apply binary_normalize_not_nan].
  destruct n as [|p|p]; try lia. unfold float_of_Z, binary_normalize, binary_round, shl_align.
  destruct (fexp fprec femax (Zpos (digits2_pos p) + 0) - 0) as [|k|k] eqn:E;
    apply binary_round_aux_nonzero; try reflexivity;
    unfold fexp, emin, fprec, femax in *; lia.
Qed.

(** ** The end of a complete run *)

Lemma not_In_filter_nil {A} (f : A -> bool) l x :
  filter f l = [] -> f x = true -> ~ In x l.
Proof.
  intros E Hx Hin. assert (H : In x (filter f l)) by (apply filter_In; auto).
  now rewrite E in H.
Qed.

(** The engine is shut down only when the loop was entered and every
    image decoded. *)
Lemma shutdown_reached w argv :
  In Shutdown (fst (main w argv)) ->
  enters_loop w argv = true
  /\ forall j, (j < Z.to_nat (image_count w argv))%nat -> decodes w argv j = true.
Proof.
  intros H. destruct (enters_loop w argv) eqn:He.
  - split; [reflexivity|].
    destruct (first_failure w argv (Z.to_nat (image_count w argv)))
      as [Hall|(i & Hi & F & B)]; [assumption|exfalso].
    rewrite (main_abort w argv i He Hi B F) in H. cbn [fst] in H.
    revert H. apply (not_In_filter_nil is_shutdown_or_export); [|reflexivity].
    rewrite !filter_app, prologue_filter by reflexivity.
    rewrite filter_flat_map_none; [reflexivity|].
    intros j Hj. apply iteration_no_shutdown. apply B. apply in_seq in Hj. lia.
  - exfalso. rewrite main_eq in H. unfold enters_loop in He.
    destruct (argc argv =? 4); cbn [negb andb] in *;
      [|destruct H as [H|[]]; discriminate].
    apply negb_false_iff in He. rewrite He in H. cbn [fst] in H.
    apply in_app_or in H. destruct H as [H|[H|[]]]; [|discriminate].
    pose proof (LoadImages_events w (arg argv 3) (mk_Vectors [] [])) as E.
    rewrite Forall_forall in E. destruct (E _ H) as [msg Hm]. discriminate.
Qed.

Lemma fold_nth_all l : forall pre acc,
  fold_left (fun a i => fadd a (nth i (pre ++ l) fzero))
            (seq (List.length pre) (List.length l)) acc
  = fold_left fadd l acc.
Proof.
  induction l as [|x l IH]; intros pre acc; [reflexivity|].
  cbn [List.length seq fold_left]. rewrite nth_middle.
  replace (pre ++ x :: l) with ((pre ++ [x]) ++ l) by now rewrite <- app_assoc.
  replace (S (List.length pre)) with (List.length (pre ++ [x]))
    by (rewrite length_app; cbn; lia).
  apply IH.
Qed.

Lemma totaltime_sum N sorted :
  List.length sorted = Z.to_nat N ->
  totaltime N sorted = fold_left fadd sorted fzero.
Proof.
  intros H. unfold totaltime. rewrite <- H. apply (fold_nth_all sorted []).
Qed.

Lemma samples_length w n : List.length (map (sample w) (seq 0 n)) = n.
Proof. now rewrite length_map, length_seq. Qed.

(** C5. In a run that gets to the shutdown, with [N >= 1] samples, the
    statistics are those of the whole sample sequence sorted in ascending
    order: the median printed is its element of index [N / 2] (integer
    division), which has as many elements before it as after it, or one
    more; the mean printed is the sum of its [N] elements, added up in
    [float] in ascending order, divided by [N]. *)
Theorem statistics_of_complete_run (w : World) (argv : list string) :
  In Shutdown (fst (main w argv)) ->
  let N := image_count w argv in
  let samples := map (sample w) (seq 0 (Z.to_nat N)) in
  let sorted := std_sort samples in
  1 <= N
  /\ List.length samples = Z.to_nat N
  /\ Permutation samples sorted
  /\ ascending sorted
  /\ (Z.to_nat (N / 2) < List.length sorted)%nat
  /\ 0 <= N / 2 - (N - 1 - N / 2) <= 1
  /\ exists before,
       fst (main w argv) =
       before ++ [Shutdown;
                  Cout ("-------" ++ endl ++ endl)%string;
                  Cout "median tracking time: ";
                  CoutFloat (nth (Z.to_nat (N / 2)) sorted fzero);
                  Cout endl;
                  Cout "mean tracking time: ";
                  CoutFloat (fdiv (fold_left fadd sorted fzero) (float_of_Z N));
                  Cout endl;
                  SaveKeyFrameTrajectoryTUM "KeyFrameTrajectory.txt";
                  SaveTrajectoryTUM "CameraTrajectory.txt"].
Proof.
  intros H N samples sorted. destruct (shutdown_reached w argv H) as [He Hd].
  destruct (enters_loop_spec w argv He) as (_ & _ & Hpos). fold N in Hpos, Hd.
  repeat split.
  - lia.
  - apply samples_length.
  - apply std_sort_perm.
  - apply std_sort_sorted. apply Forall_forall. intros x Hx.
    apply in_map_iff in Hx. destruct Hx as (ni & <- & _). apply sample_not_nan.
  - unfold sorted, samples. rewrite std_sort_length, samples_length.
    apply Z2Nat.inj_lt; [apply Z.div_pos; lia|lia|apply Z.div_lt; lia].
  - pose proof (Z.div_mod N 2 ltac:(lia)). pose proof (Z.mod_pos_bound N 2 ltac:(lia)). lia.
  - pose proof (Z.div_mod N 2 ltac:(lia)). pose proof (Z.mod_pos_bound N 2 ltac:(lia)). lia.
  - exists (prologue w argv ++ flat_map (iteration w argv) (seq 0 (Z.to_nat N))).
    rewrite (main_complete w argv He Hd). cbn [fst]. fold N samples.
    rewrite <- app_assoc. do 2 f_equal.
    unfold epilogue, statistics, median, mean. fold sorted.
    rewrite totaltime_sum by (unfold sorted; rewrite std_sort_length; apply samples_length).
    rewrite Z.quot_div_nonneg by lia. reflexivity.
Qed.

Lemma statistics_of_complete_run_witness :
  ascending (std_sort (map (sample complete_world)
                           (seq 0 (Z.to_nat (image_count complete_world example_argv))))).
Proof.
  apply (statistics_of_complete_run complete_world example_argv).
  vm_compute. repeat (try (left; reflexivity); right).
Defined.

(** C10. When the statistics are computed, [N] is at least 1, and the
    vector [vTimesTrack] that the main loop hands to them holds the [N]
    samples of the run: sorted it still has [N] elements, so the index
    [N / 2] of the median and the indices of the summation lie inside it,
    and the divisor of the mean is not zero, neither as the integer [N] nor
    as the float it is converted to. *)
Theorem statistics_stay_in_bounds (w : World) (argv : list string) :
  In Shutdown (fst (main w argv)) ->
  let N := image_count w argv in
  let n := Z.to_nat N in
  let loop := frames w (loaded w argv) N (image_scale w) (seq 0 n) (repeat fzero n) in
  exists vTimesTrack,
    snd loop = Some vTimesTrack
    /\ main w argv =
       (prologue w argv ++ fst loop ++ [Shutdown] ++ statistics N vTimesTrack
          ++ [SaveKeyFrameTrajectoryTUM "KeyFrameTrajectory.txt";
              SaveTrajectoryTUM "CameraTrajectory.txt"], 0)
    /\ 1 <= N
    /\ vTimesTrack = map (sample w) (seq 0 n)
    /\ List.length vTimesTrack = n
    /\ List.length (std_sort vTimesTrack) = n
    /\ (Z.to_nat (Z.quot N 2) < List.length (std_sort vTimesTrack))%nat
    /\ (forall ni, In ni (seq 0 n) -> (ni < List.length (std_sort vTimesTrack))%nat)
    /\ N <> 0
    /\ is_zero (float_of_Z N) = false
    /\ is_nan (float_of_Z N) = false.
Proof.
  intros H N n loop. destruct (shutdown_reached w argv H) as [He Hd].
  destruct (enters_loop_spec w argv He) as (A & B & Hpos). fold N in Hpos, Hd, B.
  assert (F : loop = (flat_map (iteration w argv) (seq 0 n),
                      Some (map (sample w) (seq 0 n)))).
  { subst loop. rewrite frames_complete.
    - now rewrite store_samples_all.
    - intros j Hj. apply Hd. apply in_seq in Hj. subst n. lia. }
  exists (map (sample w) (seq 0 n)).
  assert (L : List.length (std_sort (map (sample w) (seq 0 n))) = n)
    by (rewrite std_sort_length; apply samples_length).
  destruct (float_of_Z_nonzero N Hpos) as [Z1 Z2].
  repeat split; try assumption; try lia.
  - now rewrite F.
  - rewrite main_eq, A. fold N. rewrite B. cbv zeta. fold n loop. rewrite F.
    reflexivity.
  - apply samples_length.
  - rewrite L. subst n. apply Z2Nat.inj_lt; try lia.
    + apply Z.quot_pos; lia.
    + apply Z.quot_lt; lia.
  - intros ni Hni. rewrite L. apply in_seq in Hni. lia.
Qed.

Lemma statistics_stay_in_bounds_witness :
  exists vTimesTrack,
    snd (frames complete_world (loaded complete_world example_argv)
                (image_count complete_world example_argv) (image_scale complete_world)
                (seq 0 (Z.to_nat (image_count complete_world example_argv)))
                (repeat fzero (Z.to_nat (image_count complete_world example_argv))))
    = Some vTimesTrack
    /\ List.length vTimesTrack = Z.to_nat (image_count complete_world example_argv)
    /\ (Z.to_nat (Z.quot (image_count complete_world example_argv) 2)
        < List.length (std_sort vTimesTrack))%nat.
Proof.
  assert (H : In Shutdown (fst (main complete_world example_argv))).
  { vm_compute. repeat (try (left; reflexivity); right). }
  destruct (statistics_stay_in_bounds complete_world example_argv H)
    as (vt & H1 & _ & _ & _ & H5 & _ & H7 & _).
  exists vt. repeat split; assumption.
Defined.



(* ================================================================= *)
(** * Further properties of [main] *)

(** The events of the loop are those of decoding, resizing, tracking and
    sleeping, and the message of a failed decode. *)
Lemma frame_filter (f : event -> bool) w v N scale ni :
  (forall p, f (Imread p) = false) -> (forall a b, f (Resize a b) = false) ->
  (forall im t, f (TrackMonocular im t) = false) -> (forall u, f (Usleep u) = false) ->
  (forall m, f (Cerr m) = false) ->
  filter f (fst (frame w v N scale ni)) = [].
Proof.
  intros H1 H2 H3 H4 H5. unfold frame, scaled, wait.
  destruct (Mat_empty (imread w (filename v ni))).
  { cbn. now rewrite H1, H5. }
  destruct (negb (feq scale fone)); destruct (dlt _ _); cbn;
    now rewrite ?H1, ?H2, ?H3, ?H4.
Qed.

Lemma frames_filter (f : event -> bool) w v N scale :
  (forall p, f (Imread p) = false) -> (forall a b, f (Resize a b) = false) ->
  (forall im t, f (TrackMonocular im t) = false) -> (forall u, f (Usleep u) = false) ->
  (forall m, f (Cerr m) = false) ->
  forall todo vt, filter f (fst (frames w v N scale todo vt)) = [].
Proof.
  intros H1 H2 H3 H4 H5. induction todo as [|ni todo IH]; intros vt; [reflexivity|].
  cbn [frames]. pose proof (frame_filter f w v N scale ni H1 H2 H3 H4 H5) as F.
  destruct (frame w v N scale ni) as [ev [t|]]; cbn [fst] in *; [|exact F].
  specialize (IH (vector_set vt ni t)).
  destruct (frames w v N scale todo (vector_set vt ni t)) as [ev' r]. cbn [fst] in *.
  now rewrite filter_app, F, IH.
Qed.

Lemma epilogue_no_engine_start N vt : filter is_engine_start (epilogue N vt) = [].
Proof. reflexivity. Qed.

Lemma prologue_engine_start w argv :
  filter is_engine_start (prologue w argv)
  = [SystemCtor (arg argv 1) (arg argv 2) MONOCULAR true].
Proof.
  unfold prologue. rewrite !filter_app, (filter_none is_engine_start (fst _)).
  - reflexivity.
  - eapply Forall_impl; [|apply LoadImages_events]. now intros e [msg ->].
Qed.

(** X1. The engine is constructed exactly when [main] has three arguments
    and [nImages] is positive, then once, on the vocabulary and settings
    paths of the command line, in monocular mode with the viewer on; with a
    wrong argument count or no image it is never constructed. *)
Theorem engine_started_when_loop_entered (w : World) (argv : list string) :
  filter is_engine_start (fst (main w argv)) =
  if enters_loop w argv
  then [SystemCtor (arg argv 1) (arg argv 2) MONOCULAR true]
  else [].
Proof.
  destruct (enters_loop w argv) eqn:He.
  - rewrite (main_trace w argv He). cbv zeta.
    rewrite !filter_app, prologue_engine_start, frames_filter by reflexivity.
    now destruct (snd (frames w _ _ _ _ _)).
  - rewrite main_eq. unfold enters_loop in He.
    destruct (argc argv =? 4); cbn [negb andb] in *; [|reflexivity].
    apply negb_false_iff in He. rewrite He. cbn [fst].
    apply filter_none. apply Forall_app. split.
    + eapply Forall_impl; [|apply LoadImages_events]. now intros e [msg ->].
    + now repeat constructor.
Qed.

(** A run that enters the loop goes through all images, or stops at the
    first that does not decode. *)
Lemma run_cases w argv :
  enters_loop w argv = true ->
  (all_decode w argv = true
   /\ main w argv =
      (prologue w argv
         ++ flat_map (iteration w argv) (seq 0 (Z.to_nat (image_count w argv)))
         ++ epilogue (image_count w argv)
                     (map (sample w) (seq 0 (Z.to_nat (image_count w argv)))), 0))
  \/ (all_decode w argv = false
      /\ exists i, (i < Z.to_nat (image_count w argv))%nat
                   /\ (forall j, (j < i)%nat -> decodes w argv j = true)
                   /\ decodes w argv i = false
                   /\ main w argv =
                      (prologue w argv ++ flat_map (iteration w argv) (seq 0 i)
                         ++ [Imread (filename (loaded w argv) i);
                             decode_error (filename (loaded w argv) i)], 1)).
Proof.
  intros He.
  destruct (first_failure w argv (Z.to_nat (image_count w argv)))
    as [Hall|(i & Hi & F & B)].
  - left. split; [|now apply main_complete].
    apply forallb_forall. intros j Hj. apply Hall. apply in_seq in Hj. lia.
  - right. split.
    + destruct (all_decode w argv) eqn:E; [|reflexivity].
      unfold all_decode in E. rewrite forallb_forall in E.
      rewrite (E i) in F; [discriminate|]. apply in_seq. lia.
    + exists i. repeat split; try assumption. now apply main_abort.
Qed.

(** The exit code of [main], for an association file that cannot be opened
    or is read to its end. *)
Lemma exit_code_when_read (w : World) (argv : list string) :
  snd (main w argv) = if enters_loop w argv && all_decode w argv then 0 else 1.
Proof.
  destruct (enters_loop w argv) eqn:He; cbn [andb].
  - destruct (run_cases w argv He) as [[A ->]|(A & i & _ & _ & _ & ->)];
      now rewrite A.
  - rewrite main_eq. unfold enters_loop in He.
    destruct (argc argv =? 4); cbn [negb andb] in *; [|reflexivity].
    apply negb_false_iff in He. now rewrite He.
Qed.




(** ** From the association file to the engine *)

Lemma int_of_size_small n : Z.of_nat n < 2 ^ 31 -> int_of_size n = Z.of_nat n.
Proof.
  intros H. unfold int_of_size. rewrite Z.mod_small; lia.
Qed.

Lemma map_nth_from {A} (d : A) l : forall pre,
  map (fun j => nth j (pre ++ l) d) (seq (List.length pre) (List.length l)) = l.
Proof.
  induction l as [|x l IH]; intros pre; [reflexivity|].
  cbn [List.length seq map]. rewrite nth_middle. f_equal.
  replace (pre ++ x :: l) with ((pre ++ [x]) ++ l) by now rewrite <- app_assoc.
  replace (S (List.length pre)) with (List.length (pre ++ [x]))
    by (rewrite length_app; cbn; lia).
  apply IH.
Qed.

Lemma track_timestamps_filter trace :
  track_timestamps trace = track_timestamps (filter is_track trace).
Proof.
  unfold track_timestamps. induction trace as [|e trace IH]; [reflexivity|].
  destruct e; cbn; try exact IH. now f_equal.
Qed.

Lemma track_timestamps_tracked w argv l :
  track_timestamps (map (tracked w argv) l) = map (timestamp (loaded w argv)) l.
Proof.
  unfold track_timestamps. induction l as [|j l IH]; [reflexivity|].
  cbn. now f_equal.
Qed.

Lemma complete_tracks w argv :
  enters_loop w argv = true ->
  (forall j, (j < Z.to_nat (image_count w argv))%nat -> decodes w argv j = true) ->
  filter is_track (fst (main w argv))
  = map (tracked w argv) (seq 0 (Z.to_nat (image_count w argv))).
Proof.
  intros He Hd. rewrite (main_complete w argv He Hd). cbn [fst].
  rewrite !filter_app, prologue_filter by reflexivity.
  rewrite (filter_flat_map _ _ (tracked w argv)).
  - cbn. now rewrite app_nil_r.
  - intros j Hj. apply iteration_tracks. apply Hd. apply in_seq in Hj. lia.
Qed.

(** X4. For a well-formed association file with at least one and fewer
    than 2^31 entries, all of whose images decode, the run returns 0,
    [nImages] is the number of entries, and the engine is called with the
    timestamps of the file, one call for each entry, in the order of the
    file. *)
Theorem manifest_timestamps_reach_engine
  (r : reading) (w : World) (argv : list string) (content : string) :
  argc argv = 4 ->
  open_file w (arg argv 3) = Some content ->
  well_formed r content ->
  0 < Z.of_nat (List.length (entries r content)) < 2 ^ 31 ->
  (forall p, In p (map snd (entries r content)) -> Mat_empty (imread w p) = false) ->
  snd (main w argv) = 0
  /\ image_count w argv = Z.of_nat (List.length (entries r content))
  /\ track_timestamps (fst (main w argv)) = map fst (entries r content).
Proof.
  intros A Ho Hwf [Hpos Hlt] Himg.
  assert (L : loaded w argv
              = mk_Vectors (map snd (entries r content)) (map fst (entries r content))).
  { unfold loaded, LoadImages. rewrite Ho. cbn [snd]. unfold read_all.
    now rewrite (read_all_entries r (split_lines content)) by exact Hwf. }
  assert (N : image_count w argv = Z.of_nat (List.length (entries r content))).
  { unfold image_count. rewrite L. cbn [vstrImageFilenames]. rewrite length_map.
    now apply int_of_size_small. }
  assert (He : enters_loop w argv = true).
  { unfold enters_loop. rewrite A, N. cbn. apply negb_true_iff, Z.leb_gt. lia. }
  assert (Hd : forall j, (j < Z.to_nat (image_count w argv))%nat -> decodes w argv j = true).
  { intros j Hj. unfold decodes. apply negb_true_iff, Himg.
    unfold filename. rewrite L. cbn [vstrImageFilenames].
    apply nth_In. rewrite length_map. lia. }
  repeat split.
  - now rewrite (main_complete w argv He Hd).
  - exact N.
  - rewrite track_timestamps_filter, (complete_tracks w argv He Hd).
    rewrite track_timestamps_tracked, N, Nat2Z.id. unfold timestamp. rewrite L.
    cbn [vTimestamps]. rewrite <- (length_map fst (entries r content)).
    apply (map_nth_from indeterminate _ []).
Qed.

Lemma manifest_timestamps_reach_engine_witness :
  snd (main complete_world example_argv) = 0
  /\ image_count complete_world example_argv
     = Z.of_nat (List.length (entries FirstCharacter manifest_example))
  /\ track_timestamps (fst (main complete_world example_argv))
     = map fst (entries FirstCharacter manifest_example).
Proof.
  apply (manifest_timestamps_reach_engine
           FirstCharacter complete_world example_argv manifest_example).
  - reflexivity.
  - reflexivity.
  - intros l tok Hin Hd Ht. vm_compute in Hin.
    repeat (destruct Hin as [<-|Hin];
            [try discriminate Hd; injection Ht as <-; reflexivity|]).
    contradiction.
  - vm_compute. split; reflexivity.
  - intros p _. reflexivity.
Defined.

(** ** What [LoadImages] stores *)

Lemma double_of_decimal_not_nan neg m e : is_nan (double_of_decimal neg m e) = false.
Proof.
  unfold double_of_decimal. destruct m as [|p|p]; try reflexivity.
  destruct e as [|k|k]; try apply binary_normalize_not_nan.
  unfold SFdiv_core_binary.
  set (m' := match _ with Z0 => Zpos p | Zpos _ => _ | Zneg _ => 0 end).
  assert (Hm : 0 <= m').
  { subst m'. destruct (_ - _ - _); try lia. apply Z.shiftl_nonneg. lia. }
  assert (Hk : 0 < 10 ^ Zpos k) by (apply Z.pow_pos_nonneg; lia).
  pose proof (Z.div_pos m' (10 ^ Zpos k) Hm Hk) as Hq.
  unfold Z.div in Hq. destruct (Z.div_eucl m' (10 ^ Zpos k)) as [q r0].
  now apply binary_round_aux_not_nan.
Qed.

Lemma strtod_not_nan s : is_nan (fst (strtod s)) = false.
Proof.
  unfold strtod. destruct (read_sign s) as [neg s0].
  destruct (read_digits 0 0 s0) as [[m1 n1] s1].
  destruct (match s1 with
            | EmptyString => (m1, 0, s1)
            | String c s1' => if is_char c point then read_digits m1 0 s1' else (m1, 0, s1)
            end) as [[m n2] s2].
  destruct (n1 + n2 =? 0); [reflexivity|].
  destruct (match s2 with
            | EmptyString => (0, s2)
            | String c s2' => _
            end) as [ex s3].
  apply double_of_decimal_not_nan.
Qed.

Lemma convert_to_v_finite xtrc :
  snd (convert_to_v xtrc) = false -> is_finite (fst (convert_to_v xtrc)) = true.
Proof.
  unfold convert_to_v. pose proof (strtod_not_nan xtrc) as H.
  destruct (strtod xtrc) as [v rest]. cbn [fst] in H.
  destruct (is_empty xtrc || negb (is_empty rest)); [discriminate|].
  destruct v as [s|[]| |s m e]; cbn in *; congruence.
Qed.

(** What a line appends, when it appends: a finite timestamp and a path
    that is a word. *)
Lemma extracted_pair_shape l :
  snd (extract_pair l) <> EmptyString ->
  (exists x, fst (extract_pair l) = Some x /\ is_finite x = true)
  /\ has_space (snd (extract_pair l)) = false.
Proof.
  rewrite extract_pair_eq. destruct (skipws l) as [|c s]; [cbn; congruence|].
  destruct (extract_float (String c s)) as [xtrc rest].
  pose proof (convert_to_v_finite xtrc) as F.
  destruct (convert_to_v xtrc) as [x err]. cbn [fst snd] in *.
  destruct err; [congruence|]. intros _. split; [exists x; auto|].
  unfold first_word. generalize (skipws rest). clear.
  induction s as [|c s IH]; [reflexivity|]. cbn [span_word].
  destruct (isspace c) eqn:E; [reflexivity|].
  destruct (span_word s) as [w r]. cbn [fst has_space] in *. now rewrite E.
Qed.

Lemma fold_process_line_invariant (P : Vectors -> Prop) :
  (forall v l, P v -> P (process_line v l)) ->
  forall lines v, P v -> P (fold_left process_line lines v).
Proof.
  intros H. induction lines as [|l lines IH]; intros v Hv; cbn; auto.
Qed.

Lemma LoadImages_invariant (P : Vectors -> Prop) w path v :
  (forall u l, P u -> P (process_line u l)) -> P v -> P (snd (LoadImages w path v)).
Proof.
  intros H Hv. unfold LoadImages. destruct (open_file w path); cbn [snd]; [|exact Hv].
  unfold read_all. now apply (fold_process_line_invariant P).
Qed.

(** X5. Every timestamp [LoadImages] stores is a number: never NaN, never
    an infinity, and never the value of the uninitialised [t]. *)
Theorem loaded_timestamps_are_finite (w : World) (path : string) :
  Forall (fun t => is_finite t = true)
         (vTimestamps (snd (LoadImages w path (mk_Vectors [] [])))).
Proof.
  apply (LoadImages_invariant (fun v => Forall (fun t => is_finite t = true) (vTimestamps v)));
    [|constructor].
  intros u l Hu. destruct (process_line_cases u l) as [[E _]|(t & E & _ & Hne)].
  - now rewrite E.
  - unfold process_line in *. destruct (negb (is_empty l) && negb (starts_with_hash l));
      [|exact Hu].
    destruct (extracted_pair_shape l Hne) as [(x & Hx & Fx) _].
    destruct (extract_pair l) as [t' sRGB]. cbn [fst snd] in *. subst t'.
    destruct (negb (is_empty sRGB)); [|exact Hu]. cbn [vTimestamps].
    apply Forall_app. split; [exact Hu|]. now repeat constructor.
Qed.

(** X6. Every path [LoadImages] stores is a word: not empty, and without
    a whitespace character (so without the carriage return of a file with
    CRLF line ends). *)
Theorem loaded_paths_are_words (w : World) (path : string) :
  Forall (fun p => is_empty p = false /\ has_space p = false)
         (vstrImageFilenames (snd (LoadImages w path (mk_Vectors [] [])))).
Proof.
  apply (LoadImages_invariant
           (fun v => Forall (fun p => is_empty p = false /\ has_space p = false)
                            (vstrImageFilenames v))); [|constructor].
  intros u l Hu. destruct (process_line_cases u l) as [[E _]|(t & E & _ & Hne)].
  - now rewrite E.
  - rewrite E. cbn [vstrImageFilenames]. apply Forall_app. split; [exact Hu|].
    repeat constructor.
    + now apply is_empty_false.
    + now apply extracted_pair_shape.
Qed.

Lemma process_line_app v u l :
  process_line (Vectors_app v u) l = Vectors_app v (process_line u l).
Proof.
  unfold process_line. destruct (negb (is_empty l) && negb (starts_with_hash l));
    [|reflexivity].
  destruct (extract_pair l) as [t sRGB]. destruct (negb (is_empty sRGB)); [|reflexivity].
  unfold Vectors_app. cbn. now rewrite !app_assoc.
Qed.

Lemma fold_process_line_app lines : forall v u,
  fold_left process_line lines (Vectors_app v u)
  = Vectors_app v (fold_left process_line lines u).
Proof.
  induction lines as [|l lines IH]; intros v u; [reflexivity|].
  cbn [fold_left]. now rewrite process_line_app, IH.
Qed.

(** X7. [LoadImages] only appends: called on vectors that already hold
    entries, it leaves them in place and puts behind them exactly what it
    loads into empty vectors. *)
Theorem LoadImages_appends (w : World) (path : string) (v : Vectors) :
  snd (LoadImages w path v)
  = Vectors_app v (snd (LoadImages w path (mk_Vectors [] []))).
Proof.
  assert (E : forall u, Vectors_app u (mk_Vectors [] []) = u).
  { intros [a b]. unfold Vectors_app. cbn. now rewrite !app_nil_r. }
  unfold LoadImages. destruct (open_file w path) as [content|]; cbn [snd].
  - unfold read_all. rewrite <- (E v) at 1. apply fold_process_line_app.
  - now rewrite E.
Qed.

(** ** Lines *)

Lemma split_lines_nonempty f : split_lines f <> [].
Proof.
  destruct f as [|c f]; cbn; [discriminate|].
  destruct (is_char c newline); [discriminate|].
  destruct (split_lines f); discriminate.
Qed.

Lemma split_lines_app a b :
  split_lines (a ++ String newline b) = split_lines a ++ split_lines b.
Proof.
  induction a as [|c a IH]; [reflexivity|].
  cbn [append split_lines]. destruct (is_char c newline); rewrite IH; [reflexivity|].
  pose proof (split_lines_nonempty a). now destruct (split_lines a).
Qed.

(** X8. Reading two texts joined by a newline is reading the first and then
    the second; in particular a newline at the end of the file changes
    nothing. *)
Theorem read_all_joined (a b : string) (v : Vectors) :
  read_all (a ++ String newline b) v = read_all b (read_all a v)
  /\ read_all (a ++ String newline EmptyString) v = read_all a v.
Proof.
  unfold read_all. rewrite !split_lines_app, !fold_left_app. split; reflexivity.
Qed.

(** X14. [LoadImages] stores at most one entry for each line of the file. *)
Theorem entries_at_most_lines (w : World) (path content : string) :
  open_file w path = Some content ->
  (List.length (vstrImageFilenames (snd (LoadImages w path (mk_Vectors [] []))))
   <= List.length (split_lines content))%nat.
Proof.
  intros Ho. unfold LoadImages. rewrite Ho. cbn [snd]. unfold read_all.
  assert (G : forall lines v,
             (List.length (vstrImageFilenames (fold_left process_line lines v))
              <= List.length (vstrImageFilenames v) + List.length lines)%nat).
  { induction lines as [|l lines IH]; intros v; cbn [fold_left List.length]; [lia|].
    specialize (IH (process_line v l)).
    destruct (process_line_cases v l) as [[E _]|(t & E & _)]; rewrite E in *;
      cbn [vstrImageFilenames] in *; rewrite ?length_app in *; cbn in *; lia. }
  apply (G (split_lines content) (mk_Vectors [] [])).
Qed.

Lemma entries_at_most_lines_witness :
  (List.length (vstrImageFilenames
                  (snd (LoadImages example_world "associations.txt" (mk_Vectors [] []))))
   <= List.length (split_lines manifest_example))%nat.
Proof.
  apply (entries_at_most_lines example_world "associations.txt" manifest_example).
  reflexivity.
Defined.

Lemma skipws_app_space l c :
  isspace c = true ->
  skipws (l ++ String c EmptyString)
  = match skipws l with
    | EmptyString => EmptyString
    | s => (s ++ String c EmptyString)%string
    end.
Proof.
  intros Hc. induction l as [|a l IH]; cbn [append skipws].
  - now rewrite Hc.
  - destruct (isspace a); [exact IH|reflexivity].
Qed.

Lemma span_word_app_space s c :
  isspace c = true ->
  fst (span_word (s ++ String c EmptyString)) = fst (span_word s).
Proof.
  intros Hc. induction s as [|a s IH]; cbn [append span_word].
  - now rewrite Hc.
  - destruct (isspace a); [reflexivity|].
    destruct (span_word (s ++ String c EmptyString)), (span_word s). cbn in *. now f_equal.
Qed.

Lemma first_word_app_space r c :
  isspace c = true -> first_word (r ++ String c EmptyString) = first_word r.
Proof.
  intros Hc. unfold first_word. rewrite (skipws_app_space r c Hc).
  destruct (skipws r) as [|a s]; [reflexivity|]. now apply span_word_app_space.
Qed.

Lemma extract_pair_app_space l c :
  isspace c = true -> extract_pair (l ++ String c EmptyString) = extract_pair l.
Proof.
  intros Hc. rewrite !extract_pair_eq, (skipws_app_space l c Hc).
  destruct (skipws l) as [|a s]; [reflexivity|].
  change (String a s ++ String c EmptyString)%string
    with (String a (s ++ String c EmptyString)) at 1.
  change (String a (s ++ String c EmptyString))
    with (String a s ++ String c EmptyString)%string.
  destruct (String a s ++ String c EmptyString)%string as [|a' s'] eqn:E; [discriminate|].
  rewrite <- E, (extract_float_app (String a s) (String c EmptyString) Hc).
  destruct (extract_float (String a s)) as [xtrc rest]. cbn [fst snd].
  destruct (convert_to_v xtrc) as [x []]; [reflexivity|].
  now rewrite first_word_app_space.
Qed.

(** X9. A whitespace character at the end of a line, such as the carriage
    return that [getline] leaves from a CRLF line end, does not change what
    the line gives. *)
Theorem trailing_space_is_ignored (v : Vectors) (l : string) (c : ascii) :
  isspace c = true ->
  process_line v (l ++ String c EmptyString) = process_line v l.
Proof.
  intros Hc. unfold process_line. rewrite (extract_pair_app_space l c Hc).
  destruct l as [|a l].
  - cbn [append is_empty negb andb starts_with_hash first_char].
    destruct (isspace_not_numeric c Hc) as (_ & _ & _ & _ & _ & Hh). rewrite Hh.
    cbn [negb]. now rewrite extract_pair_eq.
  - reflexivity.
Qed.

Lemma trailing_space_is_ignored_witness :
  process_line (mk_Vectors [] []) ("0.1 img1.png" ++ String "013"%char EmptyString)
  = process_line (mk_Vectors [] []) "0.1 img1.png".
Proof.
  apply (trailing_space_is_ignored (mk_Vectors [] []) "0.1 img1.png" "013"%char).
  reflexivity.
Defined.

(** ** Pacing *)

Lemma binary_round_aux_sign prec emax mx ex lx :
  0 <= mx -> sign_clear (binary_round_aux prec emax false mx ex lx) = true.
Proof.
  intros H. unfold binary_round_aux.
  pose proof (shr_fexp_nonneg prec emax mx ex lx H) as H1.
  destruct (shr_fexp prec emax mx ex lx) as [mrs' e']. cbn [fst] in H1.
  pose proof (shr_fexp_nonneg prec emax _ e' loc_Exact
                (round_nearest_even_nonneg _ (loc_of_shr_record mrs') H1)) as H2.
  destruct (shr_fexp prec emax _ e' loc_Exact) as [mrs'' e'']. cbn [fst] in H2.
  destruct (shr_m mrs''); [reflexivity| |lia].
  now destruct (e'' <=? emax - prec).
Qed.

Lemma binary_round_sign prec emax m e :
  sign_clear (binary_round prec emax false m e) = true.
Proof.
  unfold binary_round. destruct (shl_align _ _ _) as [mz ez].
  apply binary_round_aux_sign. lia.
Qed.

Lemma SFdiv_sign prec emax x m e :
  sign_clear x = true -> sign_clear (SFdiv prec emax x (S754_finite false m e)) = true.
Proof.
  destruct x as [[]|[]| |[] mx ex]; cbn; try reflexivity; try discriminate.
  intros _. unfold SFdiv_core_binary.
  set (m' := match _ with Z0 => Zpos mx | Zpos _ => _ | Zneg _ => 0 end).
  assert (Hm : 0 <= m').
  { subst m'. destruct (_ - _ - _); try lia. apply Z.shiftl_nonneg. lia. }
  pose proof (Z.div_pos m' (Zpos m) Hm ltac:(lia)) as Hq.
  unfold Z.div in Hq. destruct (Z.div_eucl m' (Zpos m)) as [q r].
  now apply binary_round_aux_sign.
Qed.

(** With a clock that does not run backwards, a tracking time has its sign
    bit clear. *)
Lemma ttrack_sign w ni :
  now w (2 * ni) <= now w (2 * ni + 1) -> sign_clear (ttrack w ni) = true.
Proof.
  intros H. unfold ttrack, ddiv. change d1e9 with (S754_finite false 8388608000000000 (-23)).
  apply SFdiv_sign. unfold double_of_Z, binary_normalize.
  destruct (now w (2 * ni + 1) - now w (2 * ni)) as [|p|p] eqn:E; [reflexivity| |lia].
  apply binary_round_sign.
Qed.

Lemma not_below_nonpositive d T :
  sign_clear d = true -> dlt dzero T = false -> dlt d T = false.
Proof.
  unfold dlt, SFltb, dzero.
  destruct d as [[]|[]| |[] md ed], T as [[]|[]| |[] mT eT]; cbn;
    congruence.
Qed.

Lemma dsub_self_not_positive x : dlt dzero (dsub x x) = false.
Proof.
  unfold dsub, SFsub. destruct x as [[]|[]| |s m e]; try reflexivity.
  now rewrite Z.sub_diag.
Qed.

Lemma not_wait_nonpositive w v N ni :
  now w (2 * ni) <= now w (2 * ni + 1) ->
  dlt dzero (pacing v N ni) = false -> wait w v N ni = [].
Proof.
  intros Hc H. unfold wait.
  now rewrite (not_below_nonpositive _ _ (ttrack_sign w ni Hc) H).
Qed.

(** X10. When the clock does not run backwards during the engine call, the
    run does not sleep after a frame whose interval is not positive (zero,
    negative or NaN); in particular not between two entries that carry
    the same timestamp. *)
Theorem no_sleep_without_positive_interval
  (w : World) (v : Vectors) (N : Z) (ni : nat) :
  now w (2 * ni) <= now w (2 * ni + 1) ->
  (dlt dzero (pacing v N ni) = false -> wait w v N ni = [])
  /\ (Z.of_nat ni < N - 1 -> timestamp v (ni + 1) = timestamp v ni ->
      wait w v N ni = []).
Proof.
  intros Hc. pose proof (not_wait_nonpositive w v N ni Hc) as G.
  split; [exact G|]. intros Hi Ht. apply G. unfold pacing.
  apply Z.ltb_lt in Hi. rewrite Hi, Ht. apply dsub_self_not_positive.
Qed.

Lemma no_sleep_without_positive_interval_witness :
  wait single_world (loaded single_world example_argv) 1 0 = []
  /\ wait duplicate_world (loaded duplicate_world example_argv) 2 0 = [].
Proof.
  assert (Hs : now single_world (2 * 0) <= now single_world (2 * 0 + 1))
    by (vm_compute; discriminate).
  assert (Hd : now duplicate_world (2 * 0) <= now duplicate_world (2 * 0 + 1))
    by (vm_compute; discriminate).
  split.
  - apply (proj1 (no_sleep_without_positive_interval
                    single_world (loaded single_world example_argv) 1 0 Hs)).
    reflexivity.
  - apply (proj2 (no_sleep_without_positive_interval
                    duplicate_world (loaded duplicate_world example_argv) 2 0 Hd)).
    + reflexivity.
    + reflexivity.
Defined.

(** X11. With two frames or more, the interval of the last frame is the
    interval of the frame before it. *)
Theorem last_interval_repeats (v : Vectors) (n : nat) :
  (2 <= n)%nat ->
  pacing v (Z.of_nat n) (n - 1) = pacing v (Z.of_nat n) (n - 2).
Proof.
  intros H. unfold pacing.
  destruct (Z.ltb_spec (Z.of_nat (n - 1)) (Z.of_nat n - 1)); [lia|].
  destruct (Z.ltb_spec 0 (Z.of_nat (n - 1))); [|lia].
  destruct (Z.ltb_spec (Z.of_nat (n - 2)) (Z.of_nat n - 1)); [|lia].
  replace (n - 2 + 1)%nat with (n - 1)%nat by lia.
  replace (n - 1 - 1)%nat with (n - 2)%nat by lia. reflexivity.
Qed.

Lemma last_interval_repeats_witness :
  pacing (loaded complete_world example_argv) (Z.of_nat 3) (3 - 1)
  = pacing (loaded complete_world example_argv) (Z.of_nat 3) (3 - 2).
Proof.
  apply (last_interval_repeats (loaded complete_world example_argv) 3). lia.
Defined.

(** X12. A run over a single image never sleeps, whether the image decodes
    or not, as long as the clock does not run backwards. *)
Theorem single_image_run_never_sleeps (w : World) (argv : list string) :
  argc argv = 4 ->
  image_count w argv = 1 ->
  now w 0 <= now w 1 ->
  filter is_usleep (fst (main w argv)) = [].
Proof.
  intros A N Hc.
  assert (He : enters_loop w argv = true) by (unfold enters_loop; now rewrite A, N).
  rewrite (main_trace w argv He). cbv zeta. rewrite N.
  change (Z.to_nat 1) with 1%nat. cbn [seq repeat frames].
  rewrite !filter_app, prologue_filter by reflexivity.
  unfold frame, scaled.
  assert (W : wait w (loaded w argv) 1 0 = []).
  { apply (not_wait_nonpositive w (loaded w argv) 1 0 Hc).
    unfold pacing. change (Z.of_nat 0 <? 1 - 1) with false.
    change (0 <? Z.of_nat 0) with false. reflexivity. }
  rewrite W.
  destruct (Mat_empty (imread w (filename (loaded w argv) 0))); [reflexivity|].
  destruct (negb (feq (image_scale w) fone)); reflexivity.
Qed.

Lemma single_image_run_never_sleeps_witness :
  filter is_usleep (fst (main single_world example_argv)) = [].
Proof.
  apply (single_image_run_never_sleeps single_world example_argv).
  - reflexivity.
  - reflexivity.
  - vm_compute. discriminate.
Defined.

(** X13. With a clock that does not run backwards, the tracking time
    stored for a frame is not negative (and not NaN). *)
Theorem sample_is_not_negative (w : World) (ni : nat) :
  now w (2 * ni) <= now w (2 * ni + 1) ->
  fle fzero (sample w ni) = true /\ is_nan (sample w ni) = false.
Proof.
  intros Hc. split; [|apply sample_not_nan].
  pose proof (ttrack_sign w ni Hc) as S. unfold sample, float_of_double.
  assert (G : forall x, sign_clear x = true -> fle fzero x = true).
  { intros [[]|[]| |[] m e]; cbn; congruence. }
  apply G. destruct (ttrack w ni) as [s|s| |s m e]; try exact S.
  destruct s; [discriminate|]. apply binary_round_sign.
Qed.

Lemma sample_is_not_negative_witness :
  fle fzero (sample complete_world 1) = true
  /\ is_nan (sample complete_world 1) = false.
Proof.
  apply (sample_is_not_negative complete_world 1). vm_compute. discriminate.
Defined.

(* ================================================================= *)
(** * The reading loop, step by step *)

Lemma split_lines_cut text :
  split_lines text =
  match cut_line text with
  | (l, None) => [l]
  | (l, Some text') => l :: split_lines text'
  end.
Proof.
  induction text as [|c text IH]; [reflexivity|].
  cbn [split_lines cut_line]. destruct (is_char c newline); [reflexivity|].
  rewrite IH. now destruct (cut_line text) as [l [text'|]].
Qed.

(** On a text the loop ends, after one iteration for each piece of the
    text, with what [read_all] gives. *)
Lemma while_not_eof_text fuel : forall text v,
  (List.length (split_lines text) <= fuel)%nat ->
  while_not_eof fuel (Pending text) v = Some (read_all text v).
Proof.
  unfold read_all. induction fuel as [|fuel IH]; intros text v H.
  - pose proof (split_lines_nonempty text). destruct (split_lines text); [congruence|].
    cbn in H. lia.
  - cbn [while_not_eof stream_eof stream_getline].
    rewrite (split_lines_cut text) in *.
    destruct (cut_line text) as [l [text'|]].
    + cbn [fold_left]. apply IH. cbn in H. lia.
    + cbn [fold_left]. now destruct fuel.
Qed.

(** On a stream that cannot be read the loop does not end: every iteration
    reads nothing, appends nothing and leaves [eof()] false. *)
Lemma while_not_eof_bad fuel : forall v, while_not_eof fuel Bad v = None.
Proof.
  induction fuel as [|fuel IH]; intros v; [reflexivity|].
  cbn [while_not_eof stream_eof stream_getline].
  change (process_line v EmptyString) with v. apply IH.
Qed.

Lemma LoadImages_steps_read w st path v fuel :
  st <> Unreadable ->
  (match st with
   | Readable content => List.length (split_lines content)
   | _ => 0
   end <= fuel)%nat ->
  LoadImages_steps fuel st path v = Some (LoadImages (set_file w st) path v).
Proof.
  intros Hs Hf. unfold LoadImages_steps, LoadImages, set_file. cbn [open_file].
  destruct st as [|content|]; [reflexivity| |congruence].
  now rewrite while_not_eof_text.
Qed.

Lemma main_from_eq w argv :
  main w argv =
  if negb (argc argv =? 4) then ([Cerr usage], 1)
  else main_from w argv (fst (LoadImages w (arg argv 3) (mk_Vectors [] [])))
                 (snd (LoadImages w (arg argv 3) (mk_Vectors [] []))).
Proof.
  unfold main, main_from. destruct (negb (argc argv =? 4)); [reflexivity|].
  now destruct (LoadImages w (arg argv 3) (mk_Vectors [] [])) as [ev0 v].
Qed.

Lemma main_from_set_file w st argv ev0 v :
  main_from (set_file w st) argv ev0 v = main_from w argv ev0 v.
Proof. reflexivity. Qed.

(** X2. With a wrong argument count [main] returns 1.  With three
    arguments and an association file that opens but cannot be read, it
    does not return: the reading loop never ends.  With three arguments
    and a file that cannot be opened or is read to its end, it returns, 0
    exactly when [nImages] is positive and every image decodes, and 1
    otherwise. *)
Theorem exit_code_or_no_return (w : World) (st : file_state) (argv : list string) :
  (argc argv <> 4 ->
   forall fuel, main_steps fuel w st argv = Some ([Cerr usage], 1))
  /\ (argc argv = 4 -> st = Unreadable ->
      forall fuel, main_steps fuel w st argv = None)
  /\ (argc argv = 4 -> st <> Unreadable ->
      exists fuel0, forall fuel, (fuel0 <= fuel)%nat ->
        main_steps fuel w st argv = Some (main (set_file w st) argv)
        /\ snd (main (set_file w st) argv)
           = if enters_loop (set_file w st) argv && all_decode (set_file w st) argv
             then 0 else 1).
Proof.
  repeat split.
  - intros A fuel. unfold main_steps. apply Z.eqb_neq in A. now rewrite A.
  - intros A -> fuel. unfold main_steps, LoadImages_steps. rewrite A.
    cbn [Z.eqb negb]. change (4 =? 4) with true. cbn [negb].
    now rewrite while_not_eof_bad.
  - intros A Hs.
    exists (match st with
            | Readable content => List.length (split_lines content)
            | _ => 0%nat
            end).
    intros fuel Hf. split; [|apply exit_code_when_read].
    unfold main_steps. rewrite (main_from_eq (set_file w st) argv), A.
    change (4 =? 4) with true. cbn [negb].
    rewrite (LoadImages_steps_read w st _ _ fuel Hs Hf).
    destruct (LoadImages (set_file w st) (arg argv 3) (mk_Vectors [] [])) as [ev0 v].
    reflexivity.
Qed.

Lemma exit_code_or_no_return_witness :
  main_steps 1000 complete_world Unreadable example_argv = None
  /\ (exists fuel0, forall fuel, (fuel0 <= fuel)%nat ->
        main_steps fuel complete_world (Readable manifest_example) example_argv
        = Some (main (set_file complete_world (Readable manifest_example)) example_argv)
        /\ snd (main (set_file complete_world (Readable manifest_example)) example_argv)
           = if enters_loop (set_file complete_world (Readable manifest_example)) example_argv
                && all_decode (set_file complete_world (Readable manifest_example)) example_argv
             then 0 else 1).
Proof.
  assert (A : argc example_argv = 4) by reflexivity.
  split.
  - exact (proj1 (proj2 (exit_code_or_no_return complete_world Unreadable example_argv))
             A eq_refl 1000%nat).
  - apply (proj2 (proj2 (exit_code_or_no_return
                           complete_world (Readable manifest_example) example_argv)) A).
    discriminate.
Defined.
